(** * GhostChat: the chat routes, the streaming relay and the chat window

    A shallow embedding of the parts of GhostChat that carry logic:

    - [src/app/api/chat/route.ts]: the non-streaming [POST] route;
    - [docs/customization/message-streaming.md]: the streaming [POST]
      route with the [start] callback of its [ReadableStream], the
      "Handling Stream Interruptions" catch block, and the client side
      ([handleSendMessage] reading loop, [handleCancelResponse]);
    - [src/components/ChatWindow.tsx]: the [allMessages] array handed to
      the route;
    - [src/lib/openai.ts] as printed in the OpenAI integration guide;
    - the chat window's [handleSendMessage], its realtime subscription
      and the system prompt editor;
    - [getRelativeTime] of the timestamp utilities;
    - the helpers of the guides: [checkRateLimit], [generateWithRetry],
      [truncateConversation], [adaptMessages], [generateWithCache].

    Conventions.  A JavaScript string is a [string]; text is identified
    with its UTF-8 bytes, so [TextEncoder.encode] is the conversion from
    [string] to [list byte].  [TextDecoder.decode], which the chat window
    calls on whatever pieces the transport hands over and which replaces
    a character cut between two pieces, is a parameter of the window's
    code.  [null] and [undefined] are [None].  Supabase, the OpenAI
    SDK, the cookie jar and the clock are collaborators: their answers
    are read from an [Env] record and from the [Store], the code around
    them is embedded as written.  Asynchronous code is run to
    completion in program order; [Session] runs the streaming route
    suspended at each of its awaits, with the consumer of the stream
    and the chat window acting in between. *)

From Stdlib Require Import List String Ascii Bool Arith ZArith Lia.
From Stdlib Require Strings.Byte DecimalString.
Import Strings.Byte.
Import ListNotations.
Open Scope string_scope.

(** ** JavaScript values *)

Module Js.

(** [!!s] for a string: only the empty string is falsy. *)
Definition truthy (s : string) : bool :=
  match s with
  | EmptyString => false
  | String _ _ => true
  end.

(** [!!v] for [string | null | undefined]. *)
Definition truthy_opt (v : option string) : bool :=
  match v with
  | Some s => truthy s
  | None => false
  end.

(** [v || d] where [v : string | null | undefined]. *)
Definition or (v : option string) (d : string) : string :=
  if truthy_opt v then match v with Some s => s | None => d end else d.

(** [new TextEncoder().encode(s)] *)
Definition encode (s : string) : list byte := list_byte_of_string s.

End Js.

(** ** Data model ([src/lib/supabaseClient.ts]) *)

Inductive Role := system | user | assistant.

Module User.
Record t := mk { id : string; email : string; created_at : string }.
End User.

Module Chat.
Record t := mk {
  id : string;
  user_id : string;
  title : string;
  created_at : string;
  system_prompt : string
}.
End Chat.

(** A message object.  The rows read from the store carry every key; the
    object literals built by the client leave some out ([userMessage]
    has no [id], the system turn has only [role] and [content]), and the
    TypeScript cast [as { role; content }[]] changes no object. *)
Module Message.
Record t := mk {
  id : option string;
  chat_id : option string;
  role : Role;
  content : string;
  created_at : option string
}.
End Message.

(** Errors: what the provider SDK or the runtime throws, and what
    Supabase returns in the [error] key of its answers. *)
Record ApiError := { status : option nat; message : string }.
Record PgError := { code : string; details : string }.

(** ** The conversation store (Supabase table [messages]) *)

Module Store.

Record t := mk {
  rows : list Message.t;          (* table [messages], insertion order *)
  outage : option PgError;        (* [Some e]: every insert answers [{ error: e }] *)
  uuid : nat -> string            (* the ids the database hands out *)
}.

(** [supabase.from('messages').insert([m])]: resolves to [{ error }],
    it does not throw.  The database fills in [id]. *)
Definition insert (m : Message.t) (st : t) : option PgError * t :=
  match outage st with
  | Some e => (Some e, st)
  | None =>
      let row := Message.mk (Some (uuid st (List.length (rows st))))
                   (Message.chat_id m) (Message.role m)
                   (Message.content m) (Message.created_at m) in
      (None, mk (rows st ++ [row]) (outage st) (uuid st))
  end.

(** No outage: inserts are accepted. *)
Definition healthy (st : t) : bool :=
  match outage st with None => true | Some _ => false end.

End Store.

(** The assistant row the routes write for chat [chatId]. *)
Definition assistant_message (chatId content now : string) : Message.t :=
  Message.mk None (Some chatId) assistant content (Some now).

(** The same row as the store returns it, with its [id]. *)
Definition assistant_row (st : Store.t) (chatId content now : string) : Message.t :=
  Message.mk (Some (Store.uuid st (List.length (Store.rows st))))
             (Some chatId) assistant content (Some now).

(** ** Effects: console, store, exceptions *)

Inductive LogPayload := LogApi (e : ApiError) | LogPg (e : PgError).

Record World := mkWorld {
  store : Store.t;
  console : list (string * LogPayload)   (* [console.error(label, payload)] *)
}.

Inductive Completion (A : Type) :=
| Normal (a : A)
| Thrown (e : ApiError).
Arguments Normal {A} a.
Arguments Thrown {A} e.

Definition Eff (S A : Type) : Type := S -> Completion A * S.

Section EffOps.
Context {S : Type}.

Definition ret {A} (a : A) : Eff S A := fun s => (Normal a, s).

Definition bind {A B} (m : Eff S A) (k : A -> Eff S B) : Eff S B :=
  fun s =>
    match m s with
    | (Normal a, s') => k a s'
    | (Thrown e, s') => (Thrown e, s')
    end.

Definition throw {A} (e : ApiError) : Eff S A := fun s => (Thrown e, s).

(** [try { m } catch (error) { handler error }] *)
Definition try_catch {A} (m : Eff S A) (handler : ApiError -> Eff S A) : Eff S A :=
  fun s =>
    match m s with
    | (Normal a, s') => (Normal a, s')
    | (Thrown e, s') => handler e s'
    end.

Definition modify (f : S -> S) : Eff S unit := fun s => (Normal tt, f s).

Definition gets {A} (f : S -> A) : Eff S A := fun s => (Normal (f s), s).
End EffOps.

Declare Scope eff_scope.
Delimit Scope eff_scope with eff.
Notation "x <- m ;; k" := (bind m (fun x => k))
  (at level 61, m at next level, right associativity) : eff_scope.
Notation "m ;; k" := (bind m (fun _ => k))
  (at level 61, right associativity) : eff_scope.
Open Scope eff_scope.

(** [console.error(label, e)] *)
Definition console_error (label : string) (p : LogPayload) : Eff World unit :=
  modify (fun w => mkWorld (store w) (console w ++ [(label, p)])).

(** [await supabaseClient.from('messages').insert([m])] *)
Definition messages_insert (m : Message.t) : Eff World (option PgError) :=
  fun w =>
    let '(err, st) := Store.insert m (store w) in
    (Normal err, mkWorld st (console w)).

(** ** HTTP *)

Inductive StreamState :=
| Readable
| Closed
| Errored (e : ApiError).

(** A [ReadableStream] as its consumer finds it: the chunks enqueued so
    far and whether the controller was closed or errored. *)
Record ReadableStream := mkStream {
  queue : list (list byte);
  state : StreamState
}.

Inductive Body :=
| JsonError (error : string)          (* [{ error: ... }] *)
| JsonSuccess                         (* [{ success: true }] *)
| StreamBody (s : ReadableStream).

Record Response := mkResponse {
  http_status : nat;
  headers : list (string * string);
  body : Body
}.

(** [NextResponse.json(body, { status })] *)
Definition NextResponse_json (b : Body) (st : nat) : Response :=
  mkResponse st [("Content-Type", "application/json")] b.

Record Request := mkRequest {
  json : option (list Message.t * string);   (* [{ messages, chatId }]; [None]: [request.json()] throws *)
  cookies : list (string * string)
}.

(** [cookieStore.get(name)?.value] *)
Fixpoint cookie_value (jar : list (string * string)) (name : string) : option string :=
  match jar with
  | [] => None
  | (k, v) :: rest => if String.eqb k name then Some v else cookie_value rest name
  end.

Definition request_json {S} (request : Request) : Eff S (list Message.t * string) :=
  match json request with
  | Some b => ret b
  | None => throw {| status := None; message := "Unexpected end of JSON input" |}
  end.

(** ** Collaborators *)

Record AuthResponse := { data_user : option User.t; auth_error : option ApiError }.
Record ChatQuery := { data : option Chat.t; chat_error : option PgError }.

(** A non-streaming completion of the provider. *)
Record ChatCompletion := { completion_choices : list (option string) }.  (* [choices[i].message.content] *)

(** A streamed chunk: [chunk.choices[i].delta.content], every level
    possibly missing. *)
Record Delta := { delta_content : option string }.
Record ChunkChoice := { delta : option Delta }.
Record Chunk := { choices : list ChunkChoice }.

(** How the provider's stream ends: its end marker, or a fault raised
    while the next chunk is awaited. *)
Inductive StreamEnd := CleanEnd | Fault (e : ApiError).

Record OpenAIStream := { chunks : list Chunk; ending : StreamEnd }.

Record Env := mkEnv {
  now : string;                                         (* [new Date().toISOString()] *)
  auth_getUser : AuthResponse;                          (* [supabaseClient.auth.getUser()] *)
  chats_single : string -> string -> ChatQuery;         (* [.eq('id', chatId).eq('user_id', uid).single()] *)
  completions_create : list Message.t -> ApiError + ChatCompletion;
  completions_stream : list Message.t -> ApiError + OpenAIStream
}.

(** ** [src/lib/openai.ts] *)

Definition TypeError (msg : string) : ApiError := {| status := None; message := msg |}.

Definition generateChatCompletion (env : Env) (messages : list Message.t)
  : Eff World (option string) :=
  try_catch
    (match completions_create env messages with
     | inl e => throw e
     | inr completion =>
         match completion_choices completion with
         | [] => throw (TypeError "Cannot read properties of undefined (reading 'message')")
         | c :: _ => ret c
         end
     end)
    (fun error =>
       console_error "Error generating chat completion:" (LogApi error) ;;
       throw error).

Definition generateStreamingChatCompletion (env : Env) (messages : list Message.t)
  : Eff World OpenAIStream :=
  try_catch
    (match completions_stream env messages with
     | inl e => throw e
     | inr stream => ret stream
     end)
    (fun error =>
       console_error "Error generating streaming chat completion:" (LogApi error) ;;
       throw error).

(** ** [src/app/api/chat/route.ts] *)

Definition fallback_response : string :=
  "I apologize, but I was unable to generate a response.".

(** The three guards both routes share; [deny] builds the route's own
    kind of error response. *)
Definition guarded {S} (env : Env) (request : Request) (chatId : string)
    (deny : string -> nat -> Response) (k : Eff S Response) : Eff S Response :=
  let supabaseToken := cookie_value (cookies request) "sb-access-token" in
  if negb (Js.truthy_opt supabaseToken) then ret (deny "Unauthorized" 401)
  else
    match auth_error (auth_getUser env), data_user (auth_getUser env) with
    | None, Some u =>
        let q := chats_single env chatId (User.id u) in
        match chat_error q, data q with
        | None, Some _ => k
        | _, _ => ret (deny "Chat not found or access denied" 403)
        end
    | _, _ => ret (deny "Unauthorized" 401)
    end.

Module ChatRoute.

Definition POST (env : Env) (request : Request) : Eff World Response :=
  try_catch
    (mc <- request_json request ;;
     let '(messages, chatId) := mc in
     guarded env request chatId (fun msg st => NextResponse_json (JsonError msg) st)
       (aiResponse <- generateChatCompletion env messages ;;
        insertError <- messages_insert
           (assistant_message chatId (Js.or aiResponse fallback_response) (now env)) ;;
        match insertError with
        | Some e =>
            console_error "Error inserting AI response:" (LogPg e) ;;
            ret (NextResponse_json (JsonError "Failed to save AI response") 500)
        | None => ret (NextResponse_json JsonSuccess 200)
        end))
    (fun error =>
       console_error "Error in chat API route:" (LogApi error) ;;
       ret (NextResponse_json (JsonError "Internal server error") 500)).

End ChatRoute.

(** The request passes the three guards for chat [chatId]. *)
Definition authorized (env : Env) (request : Request) (chatId : string) : bool :=
  Js.truthy_opt (cookie_value (cookies request) "sb-access-token") &&
  match auth_error (auth_getUser env), data_user (auth_getUser env) with
  | None, Some u =>
      match chat_error (chats_single env chatId (User.id u)),
            data (chats_single env chatId (User.id u)) with
      | None, Some _ => true
      | _, _ => false
      end
  | _, _ => false
  end.

(** ** [src/components/ChatWindow.tsx]: the conversation handed to the route *)

Module ChatWindow.

(** [chat?.system_prompt ? [{ role: 'system', content: chat.system_prompt }] : []] *)
Definition system_turn (chat : option Chat.t) : list Message.t :=
  match chat with
  | Some c =>
      if Js.truthy (Chat.system_prompt c)
      then [Message.mk None None system (Chat.system_prompt c) None]
      else []
  | None => []
  end.

(** [[...system_turn, ...messages, userMessage]] *)
Definition allMessages (chat : option Chat.t) (messages : list Message.t)
    (userMessage : Message.t) : list Message.t :=
  system_turn chat ++ messages ++ [userMessage].

(** The [userMessage] literal of [handleSendMessage]. *)
Definition userMessage (chatId newMessage now : string) : Message.t :=
  Message.mk None (Some chatId) user newMessage (Some now).

End ChatWindow.

(** ** The streaming route ([docs/customization/message-streaming.md]) *)

Module StreamRoute.

(** What [start] works on: its local [fullResponse], the [controller]
    of the stream under construction, and the world outside. *)
Record Frame := mkFrame {
  fullResponse : string;
  controller : ReadableStream;
  world : World
}.

Definition lift {A} (m : Eff World A) : Eff Frame A :=
  fun f =>
    let '(r, w) := m (world f) in
    (r, mkFrame (fullResponse f) (controller f) w).

(** [controller.enqueue(bytes)]: a [TypeError] once the stream is no
    longer readable. *)
Definition controller_enqueue (bytes : list byte) : Eff Frame unit :=
  fun f =>
    match state (controller f) with
    | Readable =>
        (Normal tt,
         mkFrame (fullResponse f)
                 (mkStream (queue (controller f) ++ [bytes]) Readable)
                 (world f))
    | _ => (Thrown (TypeError "Invalid state: Controller is already closed"), f)
    end.

(** [controller.close()] *)
Definition controller_close : Eff Frame unit :=
  fun f =>
    match state (controller f) with
    | Readable =>
        (Normal tt,
         mkFrame (fullResponse f) (mkStream (queue (controller f)) Closed) (world f))
    | _ => (Thrown (TypeError "Invalid state: Controller is already closed"), f)
    end.

(** [controller.error(e)]: nothing happens unless the stream is
    readable; a readable stream becomes errored and its queue is reset,
    so the chunks not read by then are discarded. *)
Definition controller_error (e : ApiError) : Eff Frame unit :=
  fun f =>
    match state (controller f) with
    | Readable =>
        (Normal tt, mkFrame (fullResponse f) (mkStream [] (Errored e)) (world f))
    | _ => (Normal tt, f)
    end.

(** [chunk.choices[0]?.delta?.content] *)
Definition chunk_content (chunk : Chunk) : option string :=
  match choices chunk with
  | [] => None
  | c :: _ =>
      match delta c with
      | None => None
      | Some d => delta_content d
      end
  end.

(** The fragment a chunk carries: [chunk.choices[0]?.delta?.content || '']. *)
Definition fragment (chunk : Chunk) : string := Js.or (chunk_content chunk) "".

(** Body of the [for await] loop. *)
Definition on_chunk (chunk : Chunk) : Eff Frame unit :=
  let content := fragment chunk in
  if Js.truthy content then
    modify (fun f => mkFrame (fullResponse f ++ content) (controller f) (world f)) ;;
    controller_enqueue (Js.encode content)
  else ret tt.

(** [for await (const chunk of openaiStream) body]: the stream hands
    over its chunks one at a time, each awaited after the body has run
    on the one before, and then ends or faults. *)
Fixpoint for_await (chunks : list Chunk) (ending : StreamEnd)
    (body : Chunk -> Eff Frame unit) : Eff Frame unit :=
  match chunks with
  | [] =>
      match ending with
      | CleanEnd => ret tt
      | Fault e => throw e
      end
  | chunk :: rest => body chunk ;; for_await rest ending body
  end.

(** The insert after the loop; its answer is dropped. *)
Definition save_complete (env : Env) (chatId : string) : Eff Frame unit :=
  full <- gets fullResponse ;;
  _ <- lift (messages_insert (assistant_message chatId full (now env))) ;;
  ret tt.

(** The catch block of the route as first given. *)
Definition catch_log (error : ApiError) : Eff Frame unit :=
  lift (console_error "Error processing stream:" (LogApi error)) ;;
  controller_error error.

Definition interrupted_marker : string := " [Response interrupted]".

(** The catch block of "Handling Stream Interruptions". *)
Definition catch_interrupted (env : Env) (chatId : string) (error : ApiError)
  : Eff Frame unit :=
  lift (console_error "Stream interrupted:" (LogApi error)) ;;
  full <- gets fullResponse ;;
  (if Js.truthy full then
     _ <- lift (messages_insert
                  (assistant_message chatId (full ++ interrupted_marker) (now env))) ;;
     ret tt
   else ret tt) ;;
  controller_error error.

(** [async start(controller) { ... }], with the catch block as a
    parameter: [catch_log] is the route of Step 2, [catch_interrupted]
    the route with the interruption handling in place of it. *)
Definition start (handler : ApiError -> Eff Frame unit) (env : Env)
    (chatId : string) (openaiStream : OpenAIStream) : Eff Frame unit :=
  try_catch
    (for_await (chunks openaiStream) (ending openaiStream) on_chunk ;;
     save_complete env chatId ;;
     controller_close)
    handler.

(** [new ReadableStream({ start })]: [start] runs on a fresh controller
    with [fullResponse = '']; a rejection of [start] errors the stream.
    [construct] is the stream and the world once [start] has settled,
    with a consumer that neither reads nor cancels while [start] runs;
    [Session] below runs the same code against a consumer that does. *)
Definition fresh (w : World) : Frame := mkFrame "" (mkStream [] Readable) w.

Definition construct (start : Eff Frame unit) (w : World) : ReadableStream * World :=
  match start (fresh w) with
  | (Normal _, f) => (controller f, world f)
  | (Thrown e, f) =>
      match controller_error e f with
      | (_, f') => (controller f', world f')
      end
  end.

Definition new_ReadableStream (start : Eff Frame unit) : Eff World ReadableStream :=
  fun w => let '(s, w') := construct start w in (Normal s, w').

Definition json_response (msg : string) (st : nat) : Response :=
  mkResponse st [("Content-Type", "application/json")] (JsonError msg).

Definition stream_headers : list (string * string) :=
  [("Content-Type", "text/event-stream");
   ("Cache-Control", "no-cache");
   ("Connection", "keep-alive")].

Definition POST (handler : Env -> string -> ApiError -> Eff Frame unit)
    (env : Env) (request : Request) : Eff World Response :=
  try_catch
    (mc <- request_json request ;;
     let '(messages, chatId) := mc in
     guarded env request chatId json_response
       (openaiStream <- generateStreamingChatCompletion env messages ;;
        stream <- new_ReadableStream (start (handler env chatId) env chatId openaiStream) ;;
        ret (mkResponse 200 stream_headers (StreamBody stream))))
    (fun error =>
       console_error "Error in streaming API route:" (LogApi error) ;;
       ret (json_response "Internal server error" 500)).

(** The route of Step 2. *)
Definition POST_basic : Env -> Request -> Eff World Response :=
  POST (fun _ _ => catch_log).

(** The route with "Handling Stream Interruptions" applied. *)
Definition POST_interrupted : Env -> Request -> Eff World Response :=
  POST catch_interrupted.

(** The bytes a consumer gets that starts reading the stream as it is:
    what is queued, which is nothing once the stream is errored. *)
Definition delivered (s : ReadableStream) : list byte := List.concat (queue s).

End StreamRoute.

(** ** The streaming chat window (client side of the same guide) *)

Module StreamingChatWindow.

(** React state of the component that the two handlers touch, and
    whether the signal handed to [fetch] has been aborted. *)
Record Client := mkClient {
  abortController : option unit;
  streamingMessage : option Message.t;
  fetch_aborted : bool
}.

(** [tempStreamingMessage] of [handleSendMessage]. *)
Definition tempStreamingMessage (chatId stamp now : string) : Message.t :=
  Message.mk (Some ("streaming-" ++ stamp)) (Some chatId) assistant "" (Some now).

(** One turn of the reading loop:
    [setStreamingMessage(prev => ({ ...prev!, content: prev!.content + chunk }))]
    with [chunk = decoder.decode(value)]; [decode] stands for
    [decoder.decode], called without [{ stream: true }]. *)
Definition on_read (decode : list byte -> string) (prev : Message.t)
    (value : list byte) : Message.t :=
  Message.mk (Message.id prev) (Message.chat_id prev) (Message.role prev)
             (Message.content prev ++ decode value) (Message.created_at prev).

(** The in-progress message after the loop has read [values]. *)
Definition reading (decode : list byte -> string) (chatId stamp now : string)
    (values : list (list byte)) : Message.t :=
  fold_left (on_read decode) values (tempStreamingMessage chatId stamp now).

Definition cancelled_marker : string := " [Response cancelled]".

Definition mark_cancelled (prev : option Message.t) : option Message.t :=
  match prev with
  | Some m =>
      Some (Message.mk (Message.id m) (Message.chat_id m) (Message.role m)
                       (Message.content m ++ cancelled_marker) (Message.created_at m))
  | None => None
  end.

(** [handleCancelResponse], for chat [chatId] at time [now]. *)
Definition handleCancelResponse (chatId now : string) (c : Client)
  : World -> Client * World :=
  fun w =>
    match abortController c with
    | None => (c, w)
    | Some _ =>
        (* abortController.abort(); setAbortController(null);
           setStreamingMessage(prev => ...) *)
        let marked := mark_cancelled (streamingMessage c) in
        match streamingMessage c with
        | Some m =>
            if Js.truthy (Message.content m) then
              let '(_, st) :=
                Store.insert
                  (assistant_message chatId (Message.content m ++ cancelled_marker) now)
                  (store w) in
              (* .then(() => setStreamingMessage(null)) *)
              (mkClient None None true, mkWorld st (console w))
            else (mkClient None marked true, w)
        | None => (mkClient None marked true, w)
        end
    end.

End StreamingChatWindow.

(** ** Vocabulary of the statements *)

(** Concatenation of text fragments, in order. *)
Definition concatenation (fragments : list string) : string :=
  fold_right append "" fragments.

(** The fragments an upstream stream carries, chunk by chunk. *)
Definition fragments_of (chunks : list Chunk) : list string :=
  map StreamRoute.fragment chunks.

(** The request reaches the provider and the provider opens [upstream]
    for chat [chatId]: a stream session starts. *)
Definition opens_session (env : Env) (request : Request) (chatId : string)
    (upstream : OpenAIStream) : Prop :=
  exists messages,
    json request = Some (messages, chatId) /\
    authorized env request chatId = true /\
    completions_stream env messages = inr upstream.

(** The run from [w] to [w'] added exactly the rows [new] to the table. *)
Definition persisted (w w' : World) (new : list Message.t) : Prop :=
  Store.rows (store w') = (Store.rows (store w) ++ new)%list.

(** ** Strings, bytes and truthiness *)

Lemma append_empty_r (s : string) : s ++ "" = s.
Proof. induction s as [|c s IH]; simpl; [reflexivity | now rewrite IH]. Qed.

Lemma append_assoc (a b c : string) : (a ++ b) ++ c = a ++ (b ++ c).
Proof. induction a as [|x a IH]; simpl; [reflexivity | now rewrite IH]. Qed.

Lemma truthy_false_empty (s : string) : Js.truthy s = false -> s = "".
Proof. destruct s; simpl; [reflexivity | discriminate]. Qed.

Lemma truthy_true_nonempty (s : string) : Js.truthy s = true <-> s <> "".
Proof.
  destruct s; simpl; split; intro H; try discriminate; try reflexivity.
  now elim H.
Qed.

Lemma encode_append (a b : string) :
  Js.encode (a ++ b) = (Js.encode a ++ Js.encode b)%list.
Proof.
  unfold Js.encode, list_byte_of_string.
  induction a as [|x a IH]; simpl; [reflexivity | now f_equal].
Qed.

(** Skipping the empty fragments changes nothing in the bytes sent. *)
Lemma concat_encode_filter_truthy (l : list string) :
  List.concat (map Js.encode (filter Js.truthy l)) = List.concat (map Js.encode l).
Proof.
  induction l as [|a l IH]; simpl; [reflexivity|].
  destruct (Js.truthy a) eqn:E; simpl; rewrite IH; [reflexivity|].
  now rewrite (truthy_false_empty _ E).
Qed.

Lemma concat_encode (l : list string) :
  List.concat (map Js.encode l) = Js.encode (concatenation l).
Proof.
  induction l as [|a l IH]; simpl; [reflexivity|].
  now rewrite encode_append, IH.
Qed.

Lemma or_empty_truthy (v : option string) (d : string) :
  Js.truthy d = true -> Js.truthy (Js.or v d) = true.
Proof.
  intro Hd. unfold Js.or.
  destruct v as [s|]; simpl; [|exact Hd].
  destruct (Js.truthy s) eqn:E; [exact E | exact Hd].
Qed.

Lemma or_falsy (v : option string) (d : string) :
  Js.truthy_opt v = false -> Js.or v d = d.
Proof. intro H. unfold Js.or. now rewrite H. Qed.

(** ** The relay loop *)

Section RelayLoop.
Import StreamRoute.

(** The frame once the loop has taken in [frags] from a readable
    stream: the accumulator grew by their text, the queue by one chunk
    per non-empty fragment, nothing else moved. *)
Definition advance (f : Frame) (frags : list string) : Frame :=
  mkFrame (fullResponse f ++ concatenation frags)
          (mkStream (queue (controller f) ++ map Js.encode (filter Js.truthy frags))
                    Readable)
          (world f).

Lemma advance_nil (f : Frame) :
  state (controller f) = Readable -> advance f [] = f.
Proof.
  destruct f as [full [q st] w]; simpl; intros ->.
  unfold advance; simpl. now rewrite append_empty_r, app_nil_r.
Qed.

Lemma advance_cons (f : Frame) (a : string) (frags : list string) :
  advance (advance f [a]) frags = advance f (a :: frags).
Proof.
  unfold advance; simpl.
  rewrite append_empty_r, append_assoc.
  destruct (Js.truthy a); simpl; now rewrite <- ?app_assoc, ?app_nil_r.
Qed.

Lemma on_chunk_run (chunk : Chunk) (f : Frame) :
  state (controller f) = Readable ->
  on_chunk chunk f = (Normal tt, advance f [fragment chunk]).
Proof.
  intro Hr. unfold on_chunk, advance. simpl.
  destruct (Js.truthy (fragment chunk)) eqn:E.
  - unfold bind, modify, controller_enqueue; simpl. rewrite Hr.
    now rewrite append_empty_r.
  - unfold ret. rewrite (truthy_false_empty _ E).
    destruct f as [full [q st] w]; simpl in *; subst st.
    now rewrite !append_empty_r, app_nil_r.
Qed.

Definition settle (ending : StreamEnd) : Completion unit :=
  match ending with
  | CleanEnd => Normal tt
  | Fault e => Thrown e
  end.

Lemma for_await_run (chunks : list Chunk) (ending : StreamEnd) (f : Frame) :
  state (controller f) = Readable ->
  for_await chunks ending on_chunk f = (settle ending, advance f (fragments_of chunks)).
Proof.
  revert f. induction chunks as [|chunk rest IH]; intros f Hr; simpl.
  - rewrite (advance_nil f Hr). now destruct ending.
  - unfold bind at 1. rewrite (on_chunk_run chunk f Hr).
    rewrite IH by reflexivity. now rewrite advance_cons.
Qed.

(** The loop over [pre ++ post] is the loop over [pre] up to the point
    where the next chunk is awaited, continued by the loop over [post]. *)
Lemma for_await_app (pre post : list Chunk) (ending : StreamEnd)
    (body : Chunk -> Eff Frame unit) :
  forall f,
    for_await (pre ++ post) ending body f =
    (for_await pre CleanEnd body ;; for_await post ending body) f.
Proof.
  induction pre as [|c pre IH]; intro f; simpl.
  - reflexivity.
  - unfold bind in *. destruct (body c f) as [[[]|e] f']; [|reflexivity].
    apply IH.
Qed.

(** *** Outcomes of [start] on a fresh controller *)

Variables (env : Env) (chatId : string).

Lemma start_clean (handler : ApiError -> Eff Frame unit) (chunks : list Chunk) (w : World) :
  construct (start handler env chatId {| chunks := chunks; ending := CleanEnd |}) w =
    (mkStream (map Js.encode (filter Js.truthy (fragments_of chunks))) Closed,
     mkWorld
       (snd (Store.insert
               (assistant_message chatId (concatenation (fragments_of chunks)) (now env))
               (store w)))
       (console w)).
Proof.
  unfold construct, start, try_catch; simpl.
  unfold bind at 1. rewrite for_await_run by reflexivity. simpl.
  unfold bind, save_complete, gets, lift, messages_insert, bind, ret, controller_close; simpl.
  destruct (Store.insert _ (store w)) as [err st]; simpl. reflexivity.
Qed.

Lemma start_fault_log (chunks : list Chunk) (e : ApiError) (w : World) :
  construct (start catch_log env chatId {| chunks := chunks; ending := Fault e |}) w =
    (mkStream [] (Errored e),
     mkWorld (store w) (console w ++ [("Error processing stream:", LogApi e)])).
Proof.
  unfold construct, start, try_catch; simpl.
  unfold bind at 1. rewrite for_await_run by reflexivity. simpl.
  reflexivity.
Qed.

Lemma start_fault_interrupted (chunks : list Chunk) (e : ApiError) (w : World) :
  construct (start (catch_interrupted env chatId) env chatId
               {| chunks := chunks; ending := Fault e |}) w =
    (mkStream [] (Errored e),
     mkWorld
       (if Js.truthy (concatenation (fragments_of chunks))
        then snd (Store.insert
                    (assistant_message chatId
                       (concatenation (fragments_of chunks) ++ interrupted_marker)
                       (now env))
                    (store w))
        else store w)
       (console w ++ [("Stream interrupted:", LogApi e)])).
Proof.
  unfold construct, start, try_catch; simpl.
  unfold bind at 1. rewrite for_await_run by reflexivity. simpl.
  unfold catch_interrupted, bind, lift, console_error, modify, gets; simpl.
  destruct (Js.truthy (concatenation (fragments_of chunks))) eqn:E; simpl.
  - unfold bind, lift, messages_insert, ret; simpl.
    destruct (Store.insert _ (store w)) as [err st]; simpl. reflexivity.
  - reflexivity.
Qed.

End RelayLoop.

(** ** From the request to the stream *)

Lemma guarded_authorized {S} (env : Env) (request : Request) (chatId : string)
    (deny : string -> nat -> Response) (k : Eff S Response) :
  authorized env request chatId = true ->
  guarded env request chatId deny k = k.
Proof.
  unfold authorized, guarded. intro H.
  apply andb_prop in H as [Ht Hu]. rewrite Ht; simpl.
  destruct (auth_error (auth_getUser env)); [discriminate|].
  destruct (data_user (auth_getUser env)) as [u|]; [|discriminate].
  destruct (chat_error (chats_single env chatId (User.id u))); [discriminate|].
  destruct (data (chats_single env chatId (User.id u))); [reflexivity|discriminate].
Qed.

Lemma insert_healthy (m : Message.t) (st : Store.t) :
  Store.healthy st = true ->
  Store.rows (snd (Store.insert m st)) =
    (Store.rows st ++
     [Message.mk (Some (Store.uuid st (List.length (Store.rows st))))
                 (Message.chat_id m) (Message.role m) (Message.content m)
                 (Message.created_at m)])%list
  /\ fst (Store.insert m st) = None.
Proof.
  unfold Store.healthy, Store.insert. destruct (Store.outage st); [discriminate|].
  intros _. simpl. split; reflexivity.
Qed.

Lemma insert_at_most_one (m : Message.t) (st : Store.t) :
  exists new, Store.rows (snd (Store.insert m st)) = (Store.rows st ++ new)%list
              /\ List.length new <= 1.
Proof.
  unfold Store.insert. destruct (Store.outage st); simpl.
  - exists []. rewrite app_nil_r. split; [reflexivity | simpl; lia].
  - eexists. split; [reflexivity | simpl; lia].
Qed.

Lemma stream_POST_opens (handler : Env -> string -> ApiError -> Eff StreamRoute.Frame unit)
    (env : Env) (request : Request) (chatId : string) (upstream : OpenAIStream) (w : World) :
  opens_session env request chatId upstream ->
  StreamRoute.POST handler env request w =
    (Normal (mkResponse 200 StreamRoute.stream_headers
               (StreamBody (fst (StreamRoute.construct
                  (StreamRoute.start (handler env chatId) env chatId upstream) w)))),
     snd (StreamRoute.construct
            (StreamRoute.start (handler env chatId) env chatId upstream) w)).
Proof.
  intros (messages & Hj & Ha & Hs).
  unfold StreamRoute.POST, try_catch, request_json. rewrite Hj.
  unfold bind at 1, ret at 1.
  rewrite (guarded_authorized _ _ _ _ _ Ha).
  unfold bind at 1, generateStreamingChatCompletion, try_catch. rewrite Hs.
  unfold ret at 1.
  unfold bind, StreamRoute.new_ReadableStream.
  destruct (StreamRoute.construct _ w) as [s w']. reflexivity.
Qed.

(** ** A concrete deployment, for running the routes *)

Module Demo.

Definition alice : User.t :=
  User.mk "u-1" "alice@example.com" "2024-01-01T00:00:00.000Z".

Definition chat : Chat.t :=
  Chat.mk "chat-1" "u-1" "Greetings" "2024-01-02T00:00:00.000Z" "You are a helpful assistant.".

Definition conversation : list Message.t :=
  ChatWindow.allMessages (Some chat) []
    (ChatWindow.userMessage "chat-1" "Hi" "2024-05-01T11:59:58.000Z").

Definition request : Request :=
  mkRequest (Some (conversation, "chat-1")) [("sb-access-token", "jwt")].

Definition env (completion : ApiError + ChatCompletion)
    (stream : ApiError + OpenAIStream) : Env :=
  mkEnv "2024-05-01T12:00:00.000Z"
        {| data_user := Some alice; auth_error := None |}
        (fun cid uid =>
           if (cid =? "chat-1") && (uid =? "u-1")
           then {| data := Some chat; chat_error := None |}
           else {| data := None;
                   chat_error := Some {| code := "PGRST116"; details := "0 rows" |} |})
        (fun _ => completion)
        (fun _ => stream).

Definition no_completion : ApiError + ChatCompletion :=
  inl {| status := Some 503; message := "not used" |}.

Definition no_stream : ApiError + OpenAIStream :=
  inl {| status := Some 503; message := "not used" |}.

(** The environment of a streaming session over [upstream]. *)
Definition streaming (upstream : OpenAIStream) : Env := env no_completion (inr upstream).

Definition uuid (n : nat) : string :=
  "m-" ++ DecimalString.NilZero.string_of_uint (Nat.to_uint n).

(** An empty table that accepts inserts, and one that refuses them. *)
Definition up : World := mkWorld (Store.mk [] None uuid) [].
Definition down : World :=
  mkWorld (Store.mk [] (Some {| code := "57P01"; details := "terminating connection" |}) uuid) [].

(** A chunk carrying the text [s]. *)
Definition text (s : string) : Chunk :=
  {| choices := [ {| delta := Some {| delta_content := Some s |} |} ] |}.

(** A chunk without text, as the provider sends first and last. *)
Definition blank : Chunk := {| choices := [ {| delta := Some {| delta_content := None |} |} ] |}.

Definition transport_fault : ApiError :=
  {| status := None; message := "Connection error." |}.

Definition rate_limited : ApiError :=
  {| status := Some 429; message := "Rate limit reached for requests" |}.

Definition context_too_long : ApiError :=
  {| status := Some 400;
     message := "This model's maximum context length is 4097 tokens." |}.

Lemma opens (upstream : OpenAIStream) :
  opens_session (streaming upstream) request "chat-1" upstream.
Proof. exists conversation. repeat split. Defined.

End Demo.

(** The guards, run: without the cookie either route answers 401 and
    touches neither the store nor the provider. *)
Example unauthenticated_run :
  let anonymous := mkRequest (Some (Demo.conversation, "chat-1")) [] in
  ChatRoute.POST (Demo.env Demo.no_completion Demo.no_stream) anonymous Demo.up
    = (Normal (NextResponse_json (JsonError "Unauthorized") 401), Demo.up) /\
  StreamRoute.POST_basic (Demo.env Demo.no_completion Demo.no_stream) anonymous Demo.up
    = (Normal (StreamRoute.json_response "Unauthorized" 401), Demo.up).
Proof. split; reflexivity. Qed.

(** ** Shared facts about sessions *)

Lemma no_text (chunks : list Chunk) :
  Forall (fun c => StreamRoute.fragment c = "") chunks ->
  concatenation (fragments_of chunks) = "".
Proof.
  induction 1 as [|c cs Hc _ IH]; simpl; [reflexivity|].
  now rewrite Hc, IH.
Qed.

(** A session that ends cleanly: the stream is closed and the world is
    the old one after one insert of the accumulated text. *)
Lemma session_clean handler env request chatId upstream w :
  opens_session env request chatId upstream ->
  ending upstream = CleanEnd ->
  StreamRoute.POST handler env request w =
    (Normal (mkResponse 200 StreamRoute.stream_headers
       (StreamBody (mkStream
          (map Js.encode (filter Js.truthy (fragments_of (chunks upstream)))) Closed))),
     mkWorld
       (snd (Store.insert
               (assistant_message chatId
                  (concatenation (fragments_of (chunks upstream))) (now env))
               (store w)))
       (console w)).
Proof.
  intros Ho He. rewrite (stream_POST_opens _ _ _ _ _ _ Ho).
  destruct upstream as [cs fin]; simpl in *; subst fin.
  now rewrite start_clean.
Qed.

(** A session that faults, in the route with the interruption handling. *)
Lemma session_fault_interrupted env request chatId upstream e w :
  opens_session env request chatId upstream ->
  ending upstream = Fault e ->
  StreamRoute.POST_interrupted env request w =
    (Normal (mkResponse 200 StreamRoute.stream_headers
       (StreamBody (mkStream [] (Errored e)))),
     mkWorld
       (if Js.truthy (concatenation (fragments_of (chunks upstream)))
        then snd (Store.insert
                    (assistant_message chatId
                       (concatenation (fragments_of (chunks upstream))
                        ++ StreamRoute.interrupted_marker)
                       (now env))
                    (store w))
        else store w)
       (console w ++ [("Stream interrupted:", LogApi e)])).
Proof.
  intros Ho He. unfold StreamRoute.POST_interrupted.
  rewrite (stream_POST_opens _ _ _ _ _ _ Ho).
  destruct upstream as [cs fin]; simpl in *; subst fin.
  now rewrite start_fault_interrupted.
Qed.

(** A session that faults, in the route of Step 2. *)
Lemma session_fault_basic env request chatId upstream e w :
  opens_session env request chatId upstream ->
  ending upstream = Fault e ->
  StreamRoute.POST_basic env request w =
    (Normal (mkResponse 200 StreamRoute.stream_headers
       (StreamBody (mkStream [] (Errored e)))),
     mkWorld (store w) (console w ++ [("Error processing stream:", LogApi e)])).
Proof.
  intros Ho He. unfold StreamRoute.POST_basic.
  rewrite (stream_POST_opens _ _ _ _ _ _ Ho).
  destruct upstream as [cs fin]; simpl in *; subst fin.
  now rewrite start_fault_log.
Qed.

Lemma persisted_insert (w : World) (chatId content now : string) (log : list (string * LogPayload)) :
  Store.healthy (store w) = true ->
  persisted w
    (mkWorld (snd (Store.insert (assistant_message chatId content now) (store w))) log)
    [assistant_row (store w) chatId content now].
Proof.
  intro H. unfold persisted; simpl.
  now destruct (insert_healthy (assistant_message chatId content now) _ H) as [-> _].
Qed.

Lemma persisted_nothing (w : World) (log : list (string * LogPayload)) :
  persisted w (mkWorld (store w) log) [].
Proof. unfold persisted; simpl. now rewrite app_nil_r. Qed.

(** The rows an errored session leaves, in the route with the
    interruption handling. *)
Lemma errored_rows env request chatId upstream e w :
  opens_session env request chatId upstream ->
  ending upstream = Fault e ->
  Store.healthy (store w) = true ->
  (concatenation (fragments_of (chunks upstream)) <> "" ->
   persisted w (snd (StreamRoute.POST_interrupted env request w))
     [assistant_row (store w) chatId
        (concatenation (fragments_of (chunks upstream)) ++ StreamRoute.interrupted_marker)
        (now env)]) /\
  (concatenation (fragments_of (chunks upstream)) = "" ->
   persisted w (snd (StreamRoute.POST_interrupted env request w)) []).
Proof.
  intros Ho He Hh.
  rewrite (session_fault_interrupted _ _ _ _ _ _ Ho He); simpl. split.
  - intro Hne. apply truthy_true_nonempty in Hne. rewrite Hne.
    now apply persisted_insert.
  - intros ->. simpl. apply persisted_nothing.
Qed.

(** * Sessions: the route, the consumer of its stream, the chat window *)

Module Session.

Import StreamRoute StreamingChatWindow.

(** What can happen outside the route while [start] is suspended at an
    [await]. *)
Inductive Act :=
| Idle
| Read                         (* the consumer of the body reads what is queued *)
| Arrive (value : list byte)   (* [reader.read()] resolves in the chat window *)
| Press                        (* the user presses Cancel *)
| Disconnect.                  (* the consumer is gone: the body stream is cancelled *)

Record State := mkState {
  frame : Frame;
  received : list (list byte);   (* the chunks the consumer has read *)
  client : Client;
  script : list Act              (* what is still to happen, one act per [await] *)
}.

(** The catch block in place: the one of Step 2, or the one of
    "Handling Stream Interruptions". *)
Inductive CatchBlock := Step2 | Interruptions.

Section Window.

(** [decoder.decode] of the chat window, the chat on screen and the
    browser's [new Date().toISOString()]. *)
Variables (decode : list byte -> string) (chatId stamp : string).

(** A read takes the queue of a readable stream. *)
Definition read_queue (s : State) : State :=
  match state (controller (frame s)) with
  | Readable =>
      mkState (mkFrame (fullResponse (frame s)) (mkStream [] Readable) (world (frame s)))
              (received s ++ queue (controller (frame s)))
              (client s) (script s)
  | _ => s
  end.

(** The reading loop of [handleSendMessage] takes in one value; once
    the request has been aborted [reader.read()] rejects and no value
    is taken in any more. *)
Definition arrive (value : list byte) (s : State) : State :=
  if fetch_aborted (client s) then s
  else
    mkState (frame s) (received s)
            (mkClient (abortController (client s))
                      (option_map (fun prev => on_read decode prev value)
                                  (streamingMessage (client s)))
                      (fetch_aborted (client s)))
            (script s).

(** [handleCancelResponse] on the window as it is, against the store
    the route writes to. *)
Definition press (s : State) : State :=
  let '(c, w) := handleCancelResponse chatId stamp (client s) (world (frame s)) in
  mkState (mkFrame (fullResponse (frame s)) (controller (frame s)) w)
          (received s) c (script s).

(** Cancelling a readable stream closes it and resets its queue; from
    then on [enqueue] and [close] throw and [error] does nothing. *)
Definition cancel_stream (s : State) : State :=
  match state (controller (frame s)) with
  | Readable =>
      mkState (mkFrame (fullResponse (frame s)) (mkStream [] Closed) (world (frame s)))
              (received s) (client s) (script s)
  | _ => s
  end.

Definition perform (a : Act) (s : State) : State :=
  match a with
  | Idle => s
  | Read => read_queue s
  | Arrive value => arrive value s
  | Press => press s
  | Disconnect => cancel_stream s
  end.

(** An [await]: the next act of the script takes place. *)
Definition suspend : Eff State unit :=
  fun s =>
    match script s with
    | [] => (Normal tt, s)
    | a :: later =>
        (Normal tt, perform a (mkState (frame s) (received s) (client s) later))
    end.

(** The route's own steps act on the frame. *)
Definition on_frame {A} (m : Eff Frame A) : Eff State A :=
  fun s =>
    let '(r, f) := m (frame s) in
    (r, mkState f (received s) (client s) (script s)).

(** [for await (const chunk of openaiStream)]: suspended before each
    chunk and before the end of the stream. *)
Fixpoint for_await (chunks : list Chunk) (ending : StreamEnd) : Eff State unit :=
  match chunks with
  | [] =>
      suspend ;;
      match ending with
      | CleanEnd => ret tt
      | Fault e => throw e
      end
  | chunk :: rest =>
      suspend ;; on_frame (on_chunk chunk) ;; for_await rest ending
  end.

(** The catch block, suspended where it awaits its insert. *)
Definition handle (k : CatchBlock) (env : Env) (error : ApiError) : Eff State unit :=
  match k with
  | Step2 => on_frame (catch_log error)
  | Interruptions =>
      on_frame (lift (console_error "Stream interrupted:" (LogApi error))) ;;
      full <- on_frame (gets fullResponse) ;;
      (if Js.truthy full then
         _ <- on_frame (lift (messages_insert
                 (assistant_message chatId (full ++ interrupted_marker) (now env)))) ;;
         suspend
       else ret tt) ;;
      on_frame (controller_error error)
  end.

(** [start] of the streaming route, suspended at each of its awaits:
    in the loop, and on the insert that follows it. *)
Definition start (k : CatchBlock) (env : Env) (openaiStream : OpenAIStream)
  : Eff State unit :=
  try_catch
    (for_await (chunks openaiStream) (ending openaiStream) ;;
     on_frame (save_complete env chatId) ;;
     suspend ;;
     on_frame controller_close)
    (handle k env).

(** A session from the moment the provider has opened the stream: the
    route runs [start] on a fresh stream while the [script] takes
    place around it, the chat window being in state [c]. *)
Definition run (k : CatchBlock) (env : Env) (openaiStream : OpenAIStream)
    (script : list Act) (c : Client) (w : World) : State :=
  match start k env openaiStream (mkState (fresh w) [] c script) with
  | (Normal _, s) => s
  | (Thrown e, s) => snd (on_frame (controller_error e) s)
  end.

End Window.

(** The world a session leaves. *)
Definition outcome (s : State) : World := world (frame s).

(** How the body stream has ended. *)
Definition ended (s : State) : StreamState := state (controller (frame s)).

(** Everything the consumer gets of the body: what it has read during
    the session and what is still queued for it at the end. *)
Definition downstream (s : State) : list (list byte) :=
  (received s ++ queue (controller (frame s)))%list.

(** The consumer only reads, and the window only receives: nobody
    cancels. *)
Definition quiet (a : Act) : bool :=
  match a with
  | Idle | Read | Arrive _ => true
  | Press | Disconnect => false
  end.

End Session.

(** ** Sessions nobody cancels *)

Section QuietSessions.
Import StreamRoute StreamingChatWindow Session.

Variables (decode : list byte -> string) (chatId stamp : string).

(** What the route's side of a session looks like to an act that does
    not cancel: nothing but chunks moving from the queue to the
    consumer. *)
Definition undisturbed (s s' : State) : Prop :=
  fullResponse (frame s') = fullResponse (frame s) /\
  world (frame s') = world (frame s) /\
  state (controller (frame s')) = state (controller (frame s)) /\
  downstream s' = downstream s.

Lemma undisturbed_refl (s : State) : undisturbed s s.
Proof. repeat split. Qed.

Lemma perform_quiet (a : Act) (s : State) :
  quiet a = true -> undisturbed s (perform decode chatId stamp a s).
Proof.
  destruct a; try discriminate; intros _; simpl.
  - apply undisturbed_refl.
  - unfold read_queue. destruct (state (controller (frame s))) eqn:E;
      try apply undisturbed_refl.
    unfold undisturbed, downstream; simpl. rewrite E, app_nil_r. repeat split.
  - unfold arrive. destruct (fetch_aborted (client s)); repeat split.
Qed.

Lemma suspend_quiet (s : State) :
  forallb quiet (script s) = true ->
  exists s',
    Session.suspend decode chatId stamp s = (Normal tt, s') /\
    undisturbed s s' /\
    forallb quiet (script s') = true.
Proof.
  intro Hq. unfold Session.suspend.
  destruct (script s) as [|a later] eqn:Hs.
  - exists s. split; [reflexivity|]. split; [apply undisturbed_refl|].
    now rewrite Hs.
  - simpl in Hq. apply andb_prop in Hq as [Ha Hl].
    eexists. split; [reflexivity|]. split.
    + apply (perform_quiet a (mkState (frame s) (received s) (client s) later) Ha).
    + destruct a; try discriminate; simpl; try exact Hl.
      * unfold read_queue; simpl. now destruct (state (controller (frame s))).
      * unfold arrive; simpl. now destruct (fetch_aborted (client s)).
Qed.

(** An act that does not cancel puts nothing in the queue. *)
Lemma suspend_drained (s : State) :
  forallb quiet (script s) = true ->
  queue (controller (frame s)) = [] ->
  queue (controller (frame (snd (Session.suspend decode chatId stamp s)))) = [].
Proof.
  intros Hq H0. unfold Session.suspend.
  destruct (script s) as [|a later]; [exact H0|].
  simpl in Hq. apply andb_prop in Hq as [Ha _]. cbn [snd].
  destruct a; try discriminate Ha; cbn [perform].
  - exact H0.
  - unfold read_queue. cbn [frame]. now destruct (state (controller (frame s))).
  - unfold arrive. cbn [client frame]. now destruct (fetch_aborted (client s)).
Qed.

(** The loop of a session nobody cancels: the accumulator grows by the
    text of the chunks, every non-empty fragment goes downstream in
    order, the world is not touched. *)
Lemma loop_quiet (chunks : list Chunk) (ending : StreamEnd) :
  forall s,
    forallb quiet (script s) = true ->
    state (controller (frame s)) = Readable ->
    exists s',
      Session.for_await decode chatId stamp chunks ending s = (settle ending, s') /\
      fullResponse (frame s')
        = fullResponse (frame s) ++ concatenation (fragments_of chunks) /\
      world (frame s') = world (frame s) /\
      state (controller (frame s')) = Readable /\
      downstream s'
        = (downstream s ++ map Js.encode (filter Js.truthy (fragments_of chunks)))%list /\
      forallb quiet (script s') = true.
Proof.
  induction chunks as [|chunk rest IH]; intros s Hq Hr.
  - destruct (suspend_quiet s Hq) as (s1 & Hs & (Hf & Hw & Hst & Hd) & Hq1).
    exists s1. cbn [Session.for_await]. unfold bind. rewrite Hs.
    split; [now destruct ending|].
    simpl. rewrite append_empty_r, app_nil_r. rewrite Hst. auto.
  - destruct (suspend_quiet s Hq) as (s1 & Hs & (Hf & Hw & Hst & Hd) & Hq1).
    rewrite Hr in Hst.
    cbn [Session.for_await]. unfold bind at 1. rewrite Hs.
    unfold bind at 1. unfold on_frame at 1. rewrite (on_chunk_run chunk _ Hst).
    destruct (IH (mkState (advance (frame s1) [fragment chunk]) (received s1)
                          (client s1) (script s1)) Hq1 eq_refl)
      as (s2 & Hl & Hf2 & Hw2 & Hst2 & Hd2 & Hq2).
    exists s2. split; [exact Hl|].
    cbn [frame received advance fullResponse world controller] in *.
    split.
    { rewrite Hf2, Hf. cbn [concatenation fragments_of map fold_right].
      now rewrite append_empty_r, append_assoc. }
    split; [now rewrite Hw2|]. split; [exact Hst2|]. split; [|exact Hq2].
    rewrite Hd2. unfold downstream in *. cbn [frame received controller queue].
    unfold advance. cbn [controller queue].
    rewrite (app_assoc (received s1)), Hd.
    cbn [fragments_of map filter]. fold (fragments_of rest).
    destruct (Js.truthy (fragment chunk)); cbn [map filter app];
      now rewrite <- ?app_assoc, ?app_nil_r.
Qed.

End QuietSessions.

(** ** What a session nobody cancels leaves behind *)

Section QuietRuns.
Import StreamRoute StreamingChatWindow Session.

Variables (decode : list byte -> string) (chatId stamp : string).
Variables (env : Env) (upstream : OpenAIStream) (script : list Act) (c : Client) (w : World).

Lemma save_complete_run (f : Frame) :
  save_complete env chatId f =
    (Normal tt,
     mkFrame (fullResponse f) (controller f)
       (mkWorld (snd (Store.insert
                        (assistant_message chatId (fullResponse f) (now env))
                        (store (world f))))
                (console (world f)))).
Proof.
  unfold save_complete, bind, gets, lift, messages_insert, ret.
  now destruct (Store.insert _ (store (world f))).
Qed.

(** A session nobody cancels whose upstream ends cleanly. *)
Lemma run_quiet_clean (k : CatchBlock) :
  forallb quiet script = true ->
  ending upstream = CleanEnd ->
  let s := run decode chatId stamp k env upstream script c w in
  outcome s =
    mkWorld (snd (Store.insert
                    (assistant_message chatId
                       (concatenation (fragments_of (chunks upstream))) (now env))
                    (store w)))
            (console w) /\
  ended s = Closed /\
  downstream s = map Js.encode (filter Js.truthy (fragments_of (chunks upstream))).
Proof.
  intros Hq He. cbv zeta.
  remember (run decode chatId stamp k env upstream script c w) as s eqn:Hrun.
  unfold run, Session.start, try_catch in Hrun.
  destruct (loop_quiet decode chatId stamp (chunks upstream) (ending upstream)
              (mkState (fresh w) [] c script) Hq eq_refl)
    as (s1 & Hl & Hf & Hw & Hst & Hd & Hq1).
  unfold bind at 1 in Hrun. rewrite Hl, He in Hrun. cbn [settle] in Hrun.
  unfold bind at 1 in Hrun. unfold on_frame at 1 in Hrun.
  rewrite save_complete_run in Hrun.
  unfold bind at 1 in Hrun.
  match type of Hrun with context [Session.suspend _ _ _ ?s2] =>
    destruct (suspend_quiet decode chatId stamp s2) as (s3 & Hs & (Hf3 & Hw3 & Hst3 & Hd3) & _);
      [exact Hq1|] end.
  rewrite Hs in Hrun. unfold on_frame, controller_close in Hrun.
  cbn [frame controller] in Hst3. rewrite Hst in Hst3. rewrite Hst3 in Hrun.
  subst s.
  unfold outcome, ended, downstream in *. cbn [frame received controller queue state world] in *.
  split; [|split; [reflexivity|]].
  - rewrite Hw3, Hf, Hw. reflexivity.
  - rewrite Hd3, Hd. reflexivity.
Qed.

(** A session nobody cancels whose upstream faults: the world is left
    as the catch block leaves it, the stream is errored and has
    nothing queued; what the consumer has read by then is a first part
    of what went downstream. *)
Lemma run_quiet_fault (k : CatchBlock) (e : ApiError) :
  forallb quiet script = true ->
  ending upstream = Fault e ->
  let s := run decode chatId stamp k env upstream script c w in
  let text := concatenation (fragments_of (chunks upstream)) in
  outcome s =
    match k with
    | Step2 =>
        mkWorld (store w) (console w ++ [("Error processing stream:", LogApi e)])
    | Interruptions =>
        mkWorld
          (if Js.truthy text
           then snd (Store.insert
                       (assistant_message chatId (text ++ interrupted_marker) (now env))
                       (store w))
           else store w)
          (console w ++ [("Stream interrupted:", LogApi e)])
    end /\
  ended s = Errored e /\
  queue (controller (frame s)) = [] /\
  exists unread,
    map Js.encode (filter Js.truthy (fragments_of (chunks upstream)))
    = (received s ++ unread)%list /\
    (queue (controller (frame (snd
       (Session.for_await decode chatId stamp (chunks upstream) (ending upstream)
          (mkState (fresh w) [] c script))))) = [] ->
     unread = []).
Proof.
  intros Hq He. cbv zeta.
  remember (run decode chatId stamp k env upstream script c w) as s eqn:Hrun.
  unfold run, Session.start, try_catch in Hrun.
  destruct (loop_quiet decode chatId stamp (chunks upstream) (ending upstream)
              (mkState (fresh w) [] c script) Hq eq_refl)
    as (s1 & Hl & Hf & Hw & Hst & Hd & Hq1).
  unfold bind at 1 in Hrun. rewrite Hl, He in Hrun. cbn [settle] in Hrun.
  rewrite Hl. cbn [snd].
  unfold downstream in Hd.
  cbn [frame fresh fullResponse world received controller queue app] in Hf, Hw, Hd.
  destruct k; unfold handle in Hrun.
  - unfold on_frame, catch_log, bind, lift, console_error, modify, controller_error in Hrun.
    cbn [frame world fullResponse controller] in Hrun. rewrite Hst in Hrun.
    subst s. unfold outcome, ended. cbn [frame world controller state queue received].
    rewrite Hw. split; [reflexivity|]. split; [reflexivity|]. split; [reflexivity|].
    exists (queue (controller (frame s1))). split; [now rewrite Hd | tauto].
  - unfold bind at 1 in Hrun. unfold on_frame at 1, lift, console_error, modify in Hrun.
    cbn [frame world fullResponse controller] in Hrun.
    unfold bind at 1 in Hrun. unfold on_frame at 1, gets in Hrun.
    cbn [frame fullResponse] in Hrun.
    rewrite Hf in Hrun. cbn [append] in Hrun.
    destruct (Js.truthy (concatenation (fragments_of (chunks upstream)))) eqn:Et.
    + unfold bind at 1 in Hrun. unfold bind at 1 in Hrun.
      unfold on_frame at 1, lift, messages_insert in Hrun.
      cbn [frame world store console fullResponse controller] in Hrun.
      rewrite Hw in Hrun. cbn [store console] in Hrun.
      destruct (Store.insert _ (store w)) as [err st] eqn:Hins.
      match type of Hrun with context [Session.suspend _ _ _ ?s2] =>
        destruct (suspend_quiet decode chatId stamp s2)
          as (s3 & Hs & (Hf3 & Hw3 & Hst3 & Hd3) & _); [exact Hq1|] end.
      rewrite Hs in Hrun. unfold on_frame, controller_error in Hrun.
      cbn [frame controller] in Hst3. rewrite Hst in Hst3. rewrite Hst3 in Hrun.
      subst s.
      unfold outcome, ended, downstream in *.
      cbn [frame received controller queue state world snd] in *.
      rewrite Hw3.
      split; [reflexivity|]. split; [reflexivity|]. split; [reflexivity|].
      exists (queue (controller (frame s3))). split; [now rewrite Hd3, Hd|].
      intro H0.
      match type of Hs with Session.suspend _ _ _ ?s2 = _ =>
        pose proof (suspend_drained decode chatId stamp s2 Hq1 H0) as H3 end.
      now rewrite Hs in H3.
    + unfold bind, ret, on_frame, controller_error in Hrun.
      cbn [frame controller] in Hrun. rewrite Hst in Hrun.
      subst s. unfold outcome, ended. cbn [frame world controller state queue received].
      rewrite Hw. split; [reflexivity|]. split; [reflexivity|]. split; [reflexivity|].
      exists (queue (controller (frame s1))). split; [now rewrite Hd | tauto].
Qed.

End QuietRuns.

(** ** The session without a consumer is the route's own run *)

(** The catch block as the route module has it. *)
Definition handler_of (k : Session.CatchBlock) (env : Env) (chatId : string)
  : ApiError -> Eff StreamRoute.Frame unit :=
  match k with
  | Session.Step2 => StreamRoute.catch_log
  | Session.Interruptions => StreamRoute.catch_interrupted env chatId
  end.

Section IdleSessions.
Import StreamRoute StreamingChatWindow Session.

Variables (decode : list byte -> string) (chatId stamp : string).

Lemma suspend_idle (s : State) :
  script s = [] -> Session.suspend decode chatId stamp s = (Normal tt, s).
Proof. intro H. unfold Session.suspend. now rewrite H. Qed.

Lemma for_await_idle (chunks : list Chunk) (ending : StreamEnd) :
  forall s,
    script s = [] ->
    Session.for_await decode chatId stamp chunks ending s
    = on_frame (StreamRoute.for_await chunks ending on_chunk) s.
Proof.
  induction chunks as [|chunk rest IH]; intros s Hs; cbn [Session.for_await StreamRoute.for_await].
  - unfold bind. rewrite (suspend_idle s Hs).
    destruct s as [f r c sc]; destruct ending; reflexivity.
  - unfold bind at 1. rewrite (suspend_idle s Hs).
    unfold bind, on_frame. cbn [frame].
    destruct (on_chunk chunk (frame s)) as [[[]|e] f']; [|reflexivity].
    rewrite IH by exact Hs. reflexivity.
Qed.

(** With nothing happening around it, the session is [construct] on
    [start]: same stream, same world. *)
Lemma run_idle (k : CatchBlock) (env : Env) (upstream : OpenAIStream)
    (c : Client) (w : World) :
  let s := run decode chatId stamp k env upstream [] c w in
  construct (StreamRoute.start (handler_of k env chatId) env chatId upstream) w
  = (controller (frame s), outcome s) /\
  received s = [].
Proof.
  cbv zeta. destruct upstream as [cs fin]. 
  remember (run decode chatId stamp k env {| chunks := cs; ending := fin |} [] c w)
    as s eqn:Hrun.
  unfold run, Session.start, try_catch in Hrun. cbn [chunks ending] in Hrun.
  unfold bind at 1 in Hrun. rewrite for_await_idle in Hrun by reflexivity.
  unfold on_frame at 1 in Hrun. cbn [frame] in Hrun.
  rewrite for_await_run in Hrun by reflexivity.
  cbn [received client script] in Hrun.
  destruct fin as [|e]; cbn [settle] in Hrun.
  - rewrite start_clean.
    unfold bind at 1 in Hrun. unfold on_frame at 1 in Hrun. cbn [frame] in Hrun.
    rewrite save_complete_run in Hrun.
    unfold bind, on_frame, controller_close, Session.suspend in Hrun.
    cbn [script frame controller advance state received client fullResponse world fresh
         queue app] in Hrun.
    subst s. split; reflexivity.
  - destruct k; cbn [handler_of handle] in *.
    + rewrite start_fault_log.
      unfold on_frame, catch_log, bind, lift, console_error, modify, controller_error in Hrun.
      cbn [script frame controller advance state received client fullResponse world fresh
           queue app] in Hrun.
      subst s. split; reflexivity.
    + rewrite start_fault_interrupted.
      unfold bind, on_frame, lift, console_error, modify, gets in Hrun.
      cbn [script frame controller advance state received client fullResponse world fresh
           queue app append] in Hrun.
      destruct (Js.truthy (concatenation (fragments_of cs))).
      * unfold messages_insert, Session.suspend, ret, controller_error in Hrun.
        cbn [script frame controller advance state received client fullResponse world
             fresh queue app store console] in Hrun.
        destruct (Store.insert _ (store w)) as [err st].
        cbn [script frame controller advance state received client fullResponse world
             fresh queue app store console snd] in Hrun.
        subst s. split; reflexivity.
      * unfold ret, controller_error in Hrun.
        cbn [script frame controller advance state received client fullResponse world
             fresh queue app store console snd] in Hrun.
        subst s. split; reflexivity.
Qed.

End IdleSessions.

(** ** A consumer that keeps pace *)

Section KeepingPace.
Import StreamRoute StreamingChatWindow Session.

Variables (decode : list byte -> string) (chatId stamp : string).


End KeepingPace.

(** ** How many rows a session can write *)

Section SessionRows.
Import StreamRoute StreamingChatWindow Session.

Variables (decode : list byte -> string) (chatId stamp : string).

(** The Cancel button still has something to cancel. *)
Definition pending (c : Client) : nat :=
  match abortController c with
  | Some _ => 1
  | None => 0
  end.

(** From [s] to [s'] the table only grew, by at most [n] rows beyond
    the one a pending Cancel accounts for. *)
Definition grows (n : nat) (s s' : State) : Prop :=
  exists new,
    Store.rows (store (world (frame s')))
    = (Store.rows (store (world (frame s))) ++ new)%list /\
    List.length new + pending (client s') <= n + pending (client s).

Lemma grows_refl (s : State) : grows 0 s s.
Proof. exists []. rewrite app_nil_r. split; [reflexivity | simpl; lia]. Qed.

Lemma grows_trans (n m : nat) (s1 s2 s3 : State) :
  grows n s1 s2 -> grows m s2 s3 -> grows (n + m) s1 s3.
Proof.
  intros (a & Ha & La) (b & Hb & Lb). exists (a ++ b)%list.
  rewrite Hb, Ha, app_assoc, length_app. split; [reflexivity | lia].
Qed.

Lemma grows_weaken (n m : nat) (s s' : State) :
  n <= m -> grows n s s' -> grows m s s'.
Proof. intros Hle (a & Ha & La). exists a. split; [exact Ha | lia]. Qed.

(** Every step of [m] stays within [n] rows, however it completes. *)
Definition within {A} (n : nat) (m : Eff State A) : Prop :=
  forall s, grows n s (snd (m s)).

Lemma within_weaken {A} (n k : nat) (m : Eff State A) :
  n <= k -> within n m -> within k m.
Proof. intros Hle H s. exact (grows_weaken _ _ _ _ Hle (H s)). Qed.

Lemma within_ret {A} (a : A) : within 0 (ret a : Eff State A).
Proof. intro s. apply grows_refl. Qed.

Lemma within_throw {A} (e : ApiError) : within 0 (throw e : Eff State A).
Proof. intro s. apply grows_refl. Qed.

Lemma within_bind {A B} (n k : nat) (m : Eff State A) (f : A -> Eff State B) :
  within n m -> (forall a, within k (f a)) -> within (n + k) (bind m f).
Proof.
  intros Hm Hf s. unfold bind. specialize (Hm s).
  destruct (m s) as [[a|e] s1]; cbn [snd] in *.
  - exact (grows_trans _ _ _ _ _ Hm (Hf a s1)).
  - apply (grows_weaken n); [lia | exact Hm].
Qed.

Lemma within_try {A} (n k : nat) (m : Eff State A) (h : ApiError -> Eff State A) :
  within n m -> (forall e, within k (h e)) -> within (n + k) (try_catch m h).
Proof.
  intros Hm Hh s. unfold try_catch. specialize (Hm s).
  destruct (m s) as [[a|e] s1]; cbn [snd] in *.
  - apply (grows_weaken n); [lia | exact Hm].
  - exact (grows_trans _ _ _ _ _ Hm (Hh e s1)).
Qed.

(** A step of the route that leaves the table alone. *)
Definition keeps {A} (m : Eff Frame A) : Prop :=
  forall f, store (world (snd (m f))) = store (world f).

Lemma within_keeps {A} (m : Eff Frame A) : keeps m -> within 0 (on_frame m).
Proof.
  intros Hk s. unfold on_frame. specialize (Hk (frame s)).
  destruct (m (frame s)) as [r f]. cbn [snd] in *.
  exists []. cbn [frame client]. rewrite Hk, app_nil_r. split; [reflexivity | simpl; lia].
Qed.

Lemma keeps_on_chunk (chunk : Chunk) : keeps (on_chunk chunk).
Proof.
  intro f. unfold on_chunk. destruct (Js.truthy (fragment chunk)); [|reflexivity].
  unfold bind, modify, controller_enqueue. cbn [controller world].
  now destruct (state (controller f)).
Qed.

Lemma keeps_controller_close : keeps controller_close.
Proof. intro f. unfold controller_close. now destruct (state (controller f)). Qed.

Lemma keeps_controller_error (e : ApiError) : keeps (controller_error e).
Proof. intro f. unfold controller_error. now destruct (state (controller f)). Qed.

Lemma keeps_console_error (label : string) (p : LogPayload) :
  keeps (lift (console_error label p)).
Proof. intro f. reflexivity. Qed.

Lemma keeps_catch_log (e : ApiError) : keeps (catch_log e).
Proof.
  intro f. unfold catch_log, bind, lift, console_error, modify, controller_error.
  cbn [world controller]. now destruct (state (controller f)).
Qed.

Lemma keeps_gets {A} (g : Frame -> A) : keeps (gets g).
Proof. intro f. reflexivity. Qed.

(** An insert adds one row at most. *)
Lemma within_insert (m : Message.t) : within 1 (on_frame (lift (messages_insert m))).
Proof.
  intro s. unfold on_frame, lift, messages_insert.
  destruct (insert_at_most_one m (store (world (frame s)))) as (new & Hn & Hl).
  destruct (Store.insert m (store (world (frame s)))) as [err st].
  cbn [snd frame world store client] in *. exists new.
  cbn [client]. split; [exact Hn | lia].
Qed.

Lemma within_save_complete (env : Env) : within 1 (on_frame (save_complete env chatId)).
Proof.
  intro s. unfold on_frame. rewrite save_complete_run.
  unfold grows. cbn [snd frame world store client].
  destruct (insert_at_most_one
              (assistant_message chatId (fullResponse (frame s)) (now env))
              (store (world (frame s)))) as (new & Hn & Hl).
  exists new. split; [exact Hn | lia].
Qed.

(** Pressing Cancel adds a row only while a request is pending, and
    leaves none pending. *)
Lemma grows_press (s : State) : grows 0 s (press chatId stamp s).
Proof.
  unfold grows, press, handleCancelResponse, pending.
  destruct (abortController (client s)) eqn:Ea.
  - destruct (streamingMessage (client s)) as [m|].
    + destruct (Js.truthy (Message.content m)).
      * destruct (insert_at_most_one
                    (assistant_message chatId (Message.content m ++ cancelled_marker) stamp)
                    (store (world (frame s)))) as (new & Hn & Hl).
        destruct (Store.insert _ (store (world (frame s)))) as [err st].
        cbn [snd] in Hn. exists new.
        cbn [frame world store client abortController].
        split; [exact Hn | lia].
      * exists []. cbn [frame world client abortController].
        rewrite app_nil_r. split; [reflexivity | simpl; lia].
    + exists []. cbn [frame world client abortController].
      rewrite app_nil_r. split; [reflexivity | simpl; lia].
  - exists []. cbn [frame world client]. rewrite app_nil_r, Ea.
    split; [reflexivity | simpl; lia].
Qed.

Lemma grows_perform (a : Act) (s : State) : grows 0 s (perform decode chatId stamp a s).
Proof.
  destruct a; cbn [perform].
  - apply grows_refl.
  - unfold read_queue. destruct (state (controller (frame s))); try apply grows_refl.
    exists []. cbn [frame world client]. rewrite app_nil_r. split; [reflexivity | simpl; lia].
  - unfold arrive. destruct (fetch_aborted (client s)); [apply grows_refl|].
    exists []. cbn [frame world client]. rewrite app_nil_r.
    unfold pending. cbn [abortController]. split; [reflexivity | simpl; lia].
  - apply grows_press.
  - unfold cancel_stream. destruct (state (controller (frame s))); try apply grows_refl.
    exists []. cbn [frame world client]. rewrite app_nil_r. split; [reflexivity | simpl; lia].
Qed.

Lemma within_suspend : within 0 (Session.suspend decode chatId stamp).
Proof.
  intro s. unfold Session.suspend. destruct (script s) as [|a later]; cbn [snd].
  - apply grows_refl.
  - exact (grows_perform a (mkState (frame s) (received s) (client s) later)).
Qed.

Lemma within_for_await (chunks : list Chunk) (ending : StreamEnd) :
  within 0 (Session.for_await decode chatId stamp chunks ending).
Proof.
  induction chunks as [|chunk rest IH]; cbn [Session.for_await].
  - apply (within_bind 0 0); [apply within_suspend|].
    intros _. destruct ending; [apply within_ret | apply within_throw].
  - apply (within_bind 0 0); [apply within_suspend|]. intros _.
    apply (within_bind 0 0); [apply within_keeps, keeps_on_chunk|]. intros _.
    exact IH.
Qed.

(** The inserts the route can reach: the one after the loop, and with
    the interruption handling the one of the catch block. *)
Definition route_writes (k : CatchBlock) : nat :=
  match k with
  | Step2 => 1
  | Interruptions => 2
  end.

Lemma within_handle (k : CatchBlock) (env : Env) (e : ApiError) :
  within (route_writes k - 1) (handle decode chatId stamp k env e).
Proof.
  destruct k; cbn [route_writes handle Nat.sub].
  - apply within_keeps, keeps_catch_log.
  - apply (within_bind 0 1); [apply within_keeps, keeps_console_error|]. intros _.
    apply (within_bind 0 1); [apply within_keeps, keeps_gets|]. intro full.
    apply (within_bind 1 0); [|intros _; apply within_keeps, keeps_controller_error].
    destruct (Js.truthy full).
    + apply (within_bind 1 0); [apply within_insert|]. intros _. apply within_suspend.
    + apply (within_weaken 0); [lia | apply within_ret].
Qed.

Lemma within_start (k : CatchBlock) (env : Env) (upstream : OpenAIStream) :
  within (route_writes k) (Session.start decode chatId stamp k env upstream).
Proof.
  unfold Session.start.
  replace (route_writes k) with (1 + (route_writes k - 1)) by (destruct k; reflexivity).
  apply within_try; [|intro e; apply within_handle].
  apply (within_bind 0 1); [apply within_for_await|]. intros _.
  apply (within_bind 1 0); [apply within_save_complete|]. intros _.
  apply (within_bind 0 0); [apply within_suspend|]. intros _.
  apply within_keeps, keeps_controller_close.
Qed.

(** Whatever happens around it, a session adds to the table at most
    the rows of the route's inserts and one row of the Cancel button. *)
Lemma run_rows (k : CatchBlock) (env : Env) (upstream : OpenAIStream)
    (script : list Act) (c : Client) (w : World) :
  exists new,
    persisted w (outcome (run decode chatId stamp k env upstream script c w)) new /\
    List.length new <= route_writes k + pending c.
Proof.
  unfold run, persisted, outcome.
  pose proof (within_start k env upstream (mkState (fresh w) [] c script)) as H.
  destruct (Session.start decode chatId stamp k env upstream _) as [[[]|e] s1];
    cbn [snd] in H.
  - destruct H as (new & Hn & Hl). exists new. cbn [frame fresh world client] in *.
    split; [exact Hn | lia].
  - pose proof (within_keeps _ (keeps_controller_error e) s1) as H1.
    destruct (grows_trans _ _ _ _ _ H H1) as (new & Hn & Hl).
    exists new. cbn [frame fresh world client] in *. split; [exact Hn | lia].
Qed.

End SessionRows.

(** ** Cancelled sessions *)

(** The run from [w] to [w'] added rows with exactly these contents,
    in this order. *)
Definition wrote (w w' : World) (contents : list string) : Prop :=
  exists new, persisted w w' new /\ map Message.content new = contents.

Lemma wrote_nothing (w w' : World) : store w' = store w -> wrote w w' [].
Proof.
  intro H. exists []. unfold persisted. rewrite H, app_nil_r. split; reflexivity.
Qed.

Lemma wrote_insert (w : World) (chatId content now : string)
    (log : list (string * LogPayload)) :
  Store.healthy (store w) = true ->
  wrote w
    (mkWorld (snd (Store.insert (assistant_message chatId content now) (store w))) log)
    [content] /\
  Store.healthy (snd (Store.insert (assistant_message chatId content now) (store w))) = true.
Proof.
  intro H. split.
  - eexists. split; [now apply persisted_insert | reflexivity].
  - unfold Store.healthy, Store.insert in *. now destruct (Store.outage (store w)).
Qed.

Lemma wrote_trans (w1 w2 w3 : World) (a b : list string) :
  wrote w1 w2 a -> wrote w2 w3 b -> wrote w1 w3 (a ++ b)%list.
Proof.
  intros (x & Hx & Ex) (y & Hy & Ey). exists (x ++ y)%list. unfold persisted in *.
  rewrite Hy, Hx, app_assoc, map_app, Ex, Ey. split; reflexivity.
Qed.

Lemma truthy_append_r (a b : string) : Js.truthy b = true -> Js.truthy (a ++ b) = true.
Proof. intro H. destruct a; [exact H | reflexivity]. Qed.

Lemma concatenation_app (a b : list string) :
  concatenation (a ++ b) = concatenation a ++ concatenation b.
Proof.
  induction a as [|x a IH]; simpl; [reflexivity|].
  now rewrite IH, append_assoc.
Qed.

(** The values the reading loop is handed during a stretch of the
    script. *)
Fixpoint arrivals (acts : list Session.Act) : list (list byte) :=
  match acts with
  | [] => []
  | Session.Arrive value :: later => value :: arrivals later
  | _ :: later => arrivals later
  end.

(** What [controller.enqueue] and [controller.close] throw on a stream
    that has been cancelled. *)
Definition closed_error : ApiError :=
  TypeError "Invalid state: Controller is already closed".

Section Cancellation.
Import StreamRoute StreamingChatWindow Session.

Variables (decode : list byte -> string) (chatId stamp : string).

(** The in-progress message holds the decoded text of what was read. *)
Lemma on_read_content (values : list (list byte)) (m : Message.t) :
  Message.content (fold_left (on_read decode) values m)
  = Message.content m ++ concatenation (map decode values).
Proof.
  revert m. induction values as [|v vs IH]; intro m; simpl.
  - now rewrite append_empty_r.
  - rewrite IH. simpl. now rewrite append_assoc.
Qed.

Lemma reading_content (stamp0 now0 : string) (values : list (list byte)) :
  Message.content (reading decode chatId stamp0 now0 values)
  = concatenation (map decode values).
Proof. unfold reading. now rewrite on_read_content. Qed.

(** The chat window while a response streams in: the request is in
    flight under an abort controller and the reading loop has taken in
    [values]. *)
Definition streaming_client (stamp0 now0 : string) (values : list (list byte)) : Client :=
  mkClient (Some tt) (Some (reading decode chatId stamp0 now0 values)) false.

(** What pressing Cancel leaves behind, in the component and in the world. *)
Lemma cancel_run (stamp0 now0 : string) (values : list (list byte)) (w : World) :
  handleCancelResponse chatId stamp (streaming_client stamp0 now0 values) w =
    if Js.truthy (concatenation (map decode values))
    then (mkClient None None true,
          mkWorld (snd (Store.insert
                          (assistant_message chatId
                             (concatenation (map decode values) ++ cancelled_marker) stamp)
                          (store w)))
                  (console w))
    else (mkClient None
            (mark_cancelled (Some (reading decode chatId stamp0 now0 values)))
            true,
          w).
Proof.
  unfold handleCancelResponse, streaming_client; simpl.
  rewrite reading_content.
  destruct (Js.truthy (concatenation (map decode values))); [|reflexivity].
  now destruct (Store.insert _ (store w)).
Qed.

(** Once the request is aborted, Cancel has nothing left to do. *)
Lemma cancel_again (c : Client) (w : World) :
  abortController c = None ->
  handleCancelResponse chatId stamp c w = (c, w).
Proof. intro H. unfold handleCancelResponse. now rewrite H. Qed.

(** The loop up to the point where it awaits the chunk after [chunks]. *)
Fixpoint relay (chunks : list Chunk) : Eff State unit :=
  match chunks with
  | [] => ret tt
  | chunk :: rest =>
      Session.suspend decode chatId stamp ;; on_frame (on_chunk chunk) ;; relay rest
  end.

Lemma for_await_split (pre post : list Chunk) (ending : StreamEnd) :
  forall s,
    Session.for_await decode chatId stamp (pre ++ post) ending s
    = (relay pre ;; Session.for_await decode chatId stamp post ending) s.
Proof.
  induction pre as [|chunk pre IH]; intro s.
  - reflexivity.
  - cbn [app Session.for_await relay]. unfold bind in *.
    destruct (Session.suspend decode chatId stamp s) as [[[]|e] s1]; [|reflexivity].
    destruct (on_frame (on_chunk chunk) s1) as [[[]|e] s2]; [|reflexivity].
    apply IH.
Qed.

(** While nobody cancels, the loop takes the chunks in and the window
    the values handed to it. *)
Lemma relay_quiet (pre : list Chunk) :
  forall acts later s m,
    List.length acts = List.length pre ->
    forallb quiet acts = true ->
    script s = (acts ++ later)%list ->
    state (controller (frame s)) = Readable ->
    client s = mkClient (Some tt) (Some m) false ->
    exists s',
      relay pre s = (Normal tt, s') /\
      fullResponse (frame s')
        = fullResponse (frame s) ++ concatenation (fragments_of pre) /\
      world (frame s') = world (frame s) /\
      state (controller (frame s')) = Readable /\
      script s' = later /\
      client s' = mkClient (Some tt)
                    (Some (fold_left (on_read decode) (arrivals acts) m)) false.
Proof.
  induction pre as [|chunk pre IH]; intros acts later s m Hlen Hq Hs Hr Hc;
    destruct acts as [|a acts]; try discriminate Hlen.
  - exists s. cbn [relay fragments_of map concatenation fold_right arrivals fold_left].
    rewrite append_empty_r. repeat split; assumption.
  - cbn [forallb] in Hq. apply andb_prop in Hq as [Ha Hq].
    injection Hlen as Hlen.
    cbn [relay]. unfold bind at 1. unfold Session.suspend. rewrite Hs. cbn [app].
    set (s0 := mkState (frame s) (received s) (client s) (acts ++ later)%list).
    assert (H1 : exists s1,
               perform decode chatId stamp a s0 = s1 /\
               fullResponse (frame s1) = fullResponse (frame s) /\
               world (frame s1) = world (frame s) /\
               state (controller (frame s1)) = Readable /\
               script s1 = (acts ++ later)%list /\
               client s1 = mkClient (Some tt)
                             (Some (fold_left (on_read decode) (arrivals [a]) m)) false).
    { eexists. split; [reflexivity|]. subst s0.
      destruct a; try discriminate Ha; cbn [perform arrivals fold_left].
      - repeat split; assumption.
      - unfold read_queue. cbn [frame]. rewrite Hr. cbn [frame received client script
          fullResponse world controller state]. repeat split; assumption.
      - unfold arrive. cbn [client]. rewrite Hc. cbn [fetch_aborted abortController
          streamingMessage option_map frame client script]. repeat split; assumption. }
    destruct H1 as (s1 & -> & Hf1 & Hw1 & Hr1 & Hs1 & Hc1).
    unfold bind at 1. unfold on_frame at 1. rewrite (on_chunk_run chunk _ Hr1).
    destruct (IH acts later
                (mkState (advance (frame s1) [fragment chunk]) (received s1)
                         (client s1) (script s1))
                (fold_left (on_read decode) (arrivals [a]) m)
                Hlen Hq Hs1 eq_refl Hc1)
      as (s2 & Hrel & Hf2 & Hw2 & Hr2 & Hs2 & Hc2).
    exists s2. split; [exact Hrel|].
    cbn [frame advance fullResponse world] in Hf2, Hw2.
    split.
    { rewrite Hf2, Hf1. cbn [fragments_of map concatenation fold_right].
      now rewrite append_empty_r, append_assoc. }
    split; [now rewrite Hw2|]. split; [exact Hr2|]. split; [exact Hs2|].
    rewrite Hc2. destruct a; reflexivity.
Qed.

(** After the request is aborted and the stream cancelled nothing that
    happens around the route has any effect. *)
Lemma perform_dead (a : Act) (s : State) :
  abortController (client s) = None ->
  fetch_aborted (client s) = true ->
  state (controller (frame s)) = Closed ->
  perform decode chatId stamp a s = s.
Proof.
  destruct s as [[full [q st] w] r [ac sm fa] sc]; cbn.
  intros -> -> ->. destruct a; reflexivity.
Qed.

(** The request is aborted and the stream cancelled, or about to be. *)
Definition doomed (s : State) : Prop :=
  abortController (client s) = None /\
  fetch_aborted (client s) = true /\
  (state (controller (frame s)) = Closed \/
   (state (controller (frame s)) = Readable /\
    exists later, script s = Disconnect :: later)).

Lemma suspend_doomed (s : State) :
  doomed s ->
  exists s',
    Session.suspend decode chatId stamp s = (Normal tt, s') /\
    fullResponse (frame s') = fullResponse (frame s) /\
    world (frame s') = world (frame s) /\
    client s' = client s /\
    state (controller (frame s')) = Closed.
Proof.
  intros (Ha & Hf & [Hc | (Hr & later & Hs)]); unfold Session.suspend.
  - destruct (script s) as [|a later].
    + exists s. repeat split. exact Hc.
    + rewrite perform_dead by assumption.
      eexists. split; [reflexivity|]. repeat split. exact Hc.
  - rewrite Hs. cbn [perform]. unfold cancel_stream. cbn [frame]. rewrite Hr.
    eexists. split; [reflexivity|]. repeat split.
Qed.

(** The loop on a cancelled stream: it goes on taking chunks until
    one carries text; the enqueue of that one throws. *)
Lemma loop_doomed (chunks : list Chunk) (ending : StreamEnd) :
  forall s,
    doomed s ->
    exists s' j,
      Session.for_await decode chatId stamp chunks ending s
      = ((if existsb Js.truthy (fragments_of chunks)
          then Thrown closed_error else settle ending), s') /\
      fullResponse (frame s')
        = fullResponse (frame s) ++ concatenation (fragments_of (firstn j chunks)) /\
      world (frame s') = world (frame s) /\
      client s' = client s /\
      state (controller (frame s')) = Closed /\
      (existsb Js.truthy (fragments_of chunks) = true ->
       Js.truthy (fullResponse (frame s')) = true).
Proof.
  induction chunks as [|chunk rest IH]; intros s Hd.
  - destruct (suspend_doomed s Hd) as (s1 & Hs & Hf & Hw & Hc & Hst).
    exists s1, 0. cbn [Session.for_await]. unfold bind. rewrite Hs.
    cbn [fragments_of map existsb firstn concatenation fold_right].
    rewrite append_empty_r.
    split; [now destruct ending|]. repeat split; try assumption. discriminate.
  - destruct (suspend_doomed s Hd) as (s1 & Hs & Hf & Hw & Hc & Hst).
    destruct Hd as (Ha & Hab & _).
    cbn [Session.for_await]. unfold bind at 1. rewrite Hs.
    unfold bind at 1. unfold on_frame at 1, on_chunk.
    cbn [fragments_of map existsb]. fold (fragments_of rest).
    destruct (Js.truthy (fragment chunk)) eqn:E; cbn [orb].
    + unfold bind, modify, controller_enqueue. cbn [controller]. rewrite Hst.
      eexists. exists 1. split; [reflexivity|].
      cbn [frame fullResponse world client controller firstn fragments_of map
           concatenation fold_right].
      rewrite append_empty_r, Hf.
      repeat split; try assumption.
      intros _. now apply truthy_append_r.
    + unfold ret.
      destruct (IH (mkState (frame s1) (received s1) (client s1) (script s1)))
        as (s2 & j & Hl & Hf2 & Hw2 & Hc2 & Hst2 & Ht2).
      { split; [cbn [client]; now rewrite Hc|].
        split; [cbn [client]; now rewrite Hc|]. left. exact Hst. }
      exists s2, (S j). split; [exact Hl|].
      cbn [frame client] in Hf2, Hw2, Hc2.
      cbn [firstn fragments_of map concatenation fold_right].
      fold (fragments_of (firstn j rest)).
      rewrite (truthy_false_empty _ E). cbn [append].
      split; [now rewrite Hf2, Hf|]. split; [now rewrite Hw2, Hw|].
      split; [now rewrite Hc2, Hc|]. split; [exact Hst2 | exact Ht2].
Qed.

End Cancellation.

(** ** A cancellation the server learns of *)

Section NoticedCancellation.
Import StreamRoute StreamingChatWindow Session.

Variables (decode : list byte -> string) (chatId stamp : string).

(** The user presses Cancel when the loop has taken [pre] and the
    window has read what came with [acts]; one more chunk is taken
    before the stream is cancelled under the route, and a chunk with
    text arrives after that.  The Cancel handler has written the text
    on screen, marked, unless there was none; the enqueue that throws
    takes the route to its catch block, which in Step 2 writes nothing
    and with the interruption handling writes the text accumulated by
    then, marked as interrupted. *)
Lemma cancelled_noticed (k : CatchBlock) (env : Env) (pre : list Chunk) (chunk : Chunk)
    (post : list Chunk) (fin : StreamEnd) (acts later : list Act)
    (stamp0 now0 : string) (w : World) :
  List.length acts = List.length pre ->
  forallb quiet acts = true ->
  existsb Js.truthy (fragments_of post) = true ->
  Store.healthy (store w) = true ->
  let s := run decode chatId stamp k env
             {| chunks := pre ++ chunk :: post; ending := fin |}
             (acts ++ Press :: Disconnect :: later)
             (streaming_client decode chatId stamp0 now0 []) w in
  let seen := concatenation (map decode (arrivals acts)) in
  ended s = Closed /\
  exists j,
    wrote w (outcome s)
      ((if Js.truthy seen then [seen ++ cancelled_marker] else []) ++
       match k with
       | Step2 => []
       | Interruptions =>
           [concatenation (fragments_of (pre ++ chunk :: firstn j post))
            ++ interrupted_marker]
       end).
Proof.
  intros Hlen Hq Hex Hh. cbv zeta.
  remember (run decode chatId stamp k env _ _ _ w) as s eqn:Hrun.
  unfold run, Session.start, try_catch in Hrun. cbn [chunks ending] in Hrun.
  unfold bind at 1 in Hrun. rewrite for_await_split in Hrun. unfold bind at 1 in Hrun.
  destruct (relay_quiet decode chatId stamp pre acts (Press :: Disconnect :: later)
              (mkState (fresh w) [] (streaming_client decode chatId stamp0 now0 [])
                       (acts ++ Press :: Disconnect :: later))
              (tempStreamingMessage chatId stamp0 now0) Hlen Hq eq_refl eq_refl eq_refl)
    as (s1 & Hrel & Hf1 & Hw1 & Hr1 & Hs1 & Hc1).
  rewrite Hrel in Hrun.
  cbn [frame fresh fullResponse world append] in Hf1, Hw1.
  (* the press *)
  cbn [Session.for_await] in Hrun. unfold bind at 1 in Hrun.
  unfold Session.suspend at 1 in Hrun. rewrite Hs1 in Hrun.
  cbn [perform] in Hrun. unfold press in Hrun. cbn [client frame] in Hrun.
  rewrite Hc1, Hw1 in Hrun.
  change (mkClient (Some tt)
            (Some (fold_left (on_read decode) (arrivals acts)
                     (tempStreamingMessage chatId stamp0 now0))) false)
    with (streaming_client decode chatId stamp0 now0 (arrivals acts)) in Hrun.
  rewrite cancel_run in Hrun.
  set (seen := concatenation (map decode (arrivals acts))) in *.
  set (w1 := if Js.truthy seen
             then mkWorld (snd (Store.insert
                                  (assistant_message chatId (seen ++ cancelled_marker) stamp)
                                  (store w)))
                          (console w)
             else w).
  assert (Hw1' : wrote w w1 (if Js.truthy seen then [seen ++ cancelled_marker] else [])
                 /\ Store.healthy (store w1) = true).
  { subst w1. destruct (Js.truthy seen).
    - apply (wrote_insert w chatId _ stamp (console w) Hh).
    - split; [now apply wrote_nothing | exact Hh]. }
  destruct Hw1' as [Hwr1 Hh1].
  assert (Hpress : exists c1,
             (if Js.truthy seen
              then (mkClient None None true,
                    mkWorld (snd (Store.insert
                                    (assistant_message chatId (seen ++ cancelled_marker) stamp)
                                    (store w)))
                            (console w))
              else (mkClient None
                      (mark_cancelled
                         (Some (reading decode chatId stamp0 now0 (arrivals acts))))
                      true, w))
             = (c1, w1) /\ abortController c1 = None /\ fetch_aborted c1 = true).
  { subst w1. destruct (Js.truthy seen); eexists; repeat split. }
  destruct Hpress as (c1 & Hp & Hac & Hfa). rewrite Hp in Hrun. clear Hp.
  (* the chunk that is taken before the stream is cancelled *)
  unfold bind at 1 in Hrun. unfold on_frame at 1 in Hrun. cbn [frame] in Hrun.
  rewrite on_chunk_run in Hrun by exact Hr1.
  cbn [received client script] in Hrun.
  (* the loop on the cancelled stream *)
  match type of Hrun with context [Session.for_await _ _ _ post fin ?s3] =>
    destruct (loop_doomed decode chatId stamp post fin s3)
      as (s4 & j & Hl & Hf4 & Hw4 & Hc4 & Hst4 & Ht4)
  end.
  { split; [exact Hac|]. split; [exact Hfa|]. right. split; [reflexivity|].
    now exists later. }
  rewrite Hl, Hex in Hrun. specialize (Ht4 Hex).
  cbn [frame advance fullResponse world client] in Hf4, Hw4, Hc4.
  assert (Hfull : fullResponse (frame s4)
                  = concatenation (fragments_of (pre ++ chunk :: firstn j post))).
  { rewrite Hf4, Hf1. unfold fragments_of. rewrite map_app, concatenation_app.
    cbn [map concatenation fold_right]. now rewrite append_empty_r, append_assoc. }
  destruct k; cbn [handle] in Hrun.
  - unfold on_frame, catch_log, bind, lift, console_error, modify, controller_error in Hrun.
    cbn [frame world controller fullResponse] in Hrun. rewrite Hst4 in Hrun.
    subst s. unfold ended, outcome. cbn [frame controller world].
    split; [exact Hst4|]. exists j. rewrite app_nil_r.
    destruct Hwr1 as (new & Hn & Hc). exists new. split; [|exact Hc].
    unfold persisted in *. cbn [store]. now rewrite Hw4.
  - unfold bind at 1 in Hrun. unfold on_frame at 1, lift, console_error, modify in Hrun.
    cbn [frame world fullResponse controller] in Hrun.
    unfold bind at 1 in Hrun. unfold on_frame at 1, gets in Hrun.
    cbn [frame fullResponse] in Hrun. rewrite Ht4 in Hrun.
    unfold bind at 1 in Hrun. unfold bind at 1 in Hrun.
    unfold on_frame at 1, lift, messages_insert in Hrun.
    cbn [frame world store console fullResponse controller] in Hrun.
    rewrite Hw4 in Hrun.
    destruct (wrote_insert w1 chatId (fullResponse (frame s4) ++ interrupted_marker)
                (now env) (console w1 ++ [("Stream interrupted:", LogApi closed_error)])%list
                Hh1) as [Hwr2 _].
    destruct (Store.insert _ (store w1)) as [err st] eqn:Hins. cbn [snd] in Hwr2.
    match type of Hrun with context [Session.suspend _ _ _ ?s5] =>
      destruct (suspend_doomed decode chatId stamp s5)
        as (s6 & Hs6 & Hf6 & Hw6 & Hc6 & Hst6)
    end.
    { split; [cbn [client]; now rewrite Hc4|].
      split; [cbn [client]; now rewrite Hc4|]. left. exact Hst4. }
    rewrite Hs6 in Hrun. unfold on_frame, controller_error in Hrun.
    rewrite Hst6 in Hrun.
    subst s. unfold ended, outcome. cbn [frame controller world snd] in *.
    split; [exact Hst6|]. exists j. rewrite Hw6, <- Hfull.
    exact (wrote_trans _ _ _ _ _ Hwr1 Hwr2).
Qed.

End NoticedCancellation.

(** ** The loop, chunk by chunk *)

Section Lockstep.
Import StreamRoute StreamingChatWindow Session.

Variables (decode : list byte -> string) (chatId stamp : string).


End Lockstep.

(** * The claims *)

(** ** Completed sessions *)

(** C2.  A session whose upstream ends cleanly after any number of
    chunks (none included) closes the stream and persists one assistant
    row whose content is the concatenation of the fragments of all
    chunks, in the order they were relayed, with nothing added or
    removed.  The catch block plays no part, so this holds for the route
    with either one. *)
Theorem completed_persists_concatenation
    handler env request chatId upstream w :
  opens_session env request chatId upstream ->
  ending upstream = CleanEnd ->
  Store.healthy (store w) = true ->
  exists s w',
    StreamRoute.POST handler env request w =
      (Normal (mkResponse 200 StreamRoute.stream_headers (StreamBody s)), w') /\
    state s = Closed /\
    console w' = console w /\
    persisted w w'
      [assistant_row (store w) chatId
         (concatenation (fragments_of (chunks upstream))) (now env)].
Proof.
  intros Ho He Hh. do 2 eexists.
  split; [apply (session_clean _ _ _ _ _ _ Ho He)|].
  split; [reflexivity|]. split; [reflexivity|].
  now apply persisted_insert.
Qed.

Definition scenario_A : OpenAIStream :=
  {| chunks := [Demo.text "Hello"; Demo.text ", "; Demo.text "world"];
     ending := CleanEnd |}.

Lemma completed_persists_concatenation_witness :
  exists s w',
    StreamRoute.POST_basic (Demo.streaming scenario_A) Demo.request Demo.up =
      (Normal (mkResponse 200 StreamRoute.stream_headers (StreamBody s)), w') /\
    state s = Closed /\
    console w' = console Demo.up /\
    persisted Demo.up w'
      [assistant_row (store Demo.up) "chat-1"
         (concatenation (fragments_of (chunks scenario_A)))
         (now (Demo.streaming scenario_A))].
Proof.
  apply (completed_persists_concatenation (fun _ _ => StreamRoute.catch_log)
           (Demo.streaming scenario_A) Demo.request "chat-1" scenario_A Demo.up).
  - apply Demo.opens.
  - reflexivity.
  - reflexivity.
Defined.

(** Scenario A, run: the table holds the single row "Hello, world". *)
Example scenario_A_run :
  map Message.content
      (Store.rows (store (snd (StreamRoute.POST_basic (Demo.streaming scenario_A)
                                 Demo.request Demo.up))))
  = ["Hello, world"].
Proof. reflexivity. Qed.

(** ** Sessions without text *)

(** C10.  When no chunk of the session carried text, a clean end still
    persists one assistant row, with the empty string as content (for
    the route with either catch block), whereas a fault persists nothing
    in the route with the interruption handling. *)
Theorem zero_fragments_policy env request chatId upstream w :
  opens_session env request chatId upstream ->
  Forall (fun c => StreamRoute.fragment c = "") (chunks upstream) ->
  Store.healthy (store w) = true ->
  (ending upstream = CleanEnd ->
   forall handler,
     persisted w (snd (StreamRoute.POST handler env request w))
       [assistant_row (store w) chatId "" (now env)]) /\
  (forall e, ending upstream = Fault e ->
     persisted w (snd (StreamRoute.POST_interrupted env request w)) []).
Proof.
  intros Ho Hz Hh. pose proof (no_text _ Hz) as Htxt. split.
  - intros He handler. rewrite (session_clean handler _ _ _ _ _ Ho He); simpl.
    rewrite Htxt. now apply persisted_insert.
  - intros e He. rewrite (session_fault_interrupted _ _ _ _ _ _ Ho He); simpl.
    rewrite Htxt. simpl. apply persisted_nothing.
Qed.

Definition silent_completion : OpenAIStream :=
  {| chunks := [Demo.blank; Demo.blank]; ending := CleanEnd |}.

Lemma zero_fragments_policy_witness :
  persisted Demo.up
    (snd (StreamRoute.POST_interrupted (Demo.streaming silent_completion)
            Demo.request Demo.up))
    [assistant_row (store Demo.up) "chat-1" "" (now (Demo.streaming silent_completion))].
Proof.
  assert (Hz : Forall (fun c => StreamRoute.fragment c = "") (chunks silent_completion))
    by (repeat constructor).
  exact (proj1 (zero_fragments_policy (Demo.streaming silent_completion) Demo.request
                  "chat-1" silent_completion Demo.up
                  (Demo.opens silent_completion) Hz eq_refl)
               eq_refl StreamRoute.catch_interrupted).
Defined.

(** ** Errored sessions *)

(** C3 as the specification words it: the errored session leaves one
    row, the accumulated text followed by the interruption marker. *)
Definition errored_persists_marked (env : Env) (request : Request) (chatId : string)
    (upstream : OpenAIStream) (w : World) : Prop :=
  persisted w (snd (StreamRoute.POST_interrupted env request w))
    [assistant_row (store w) chatId
       (concatenation (fragments_of (chunks upstream)) ++ StreamRoute.interrupted_marker)
       (now env)].

Definition fault_before_first_fragment : OpenAIStream :=
  {| chunks := []; ending := Fault Demo.transport_fault |}.

(** C3 fails for k = 0: a session that faults before any fragment
    leaves the table as it was. *)
Lemma errored_without_text_counterexample :
  opens_session (Demo.streaming fault_before_first_fragment) Demo.request "chat-1"
    fault_before_first_fragment /\
  ending fault_before_first_fragment = Fault Demo.transport_fault /\
  Store.healthy (store Demo.up) = true /\
  ~ errored_persists_marked (Demo.streaming fault_before_first_fragment) Demo.request
      "chat-1" fault_before_first_fragment Demo.up.
Proof.
  split; [apply Demo.opens|]. split; [reflexivity|]. split; [reflexivity|].
  unfold errored_persists_marked, persisted. simpl. discriminate.
Qed.

(** C3, amended.  A session that faults after fragments whose
    concatenation is not empty persists exactly one row, that
    concatenation followed by " [Response interrupted]"; a session that
    faults with no text received persists nothing.  Either way the
    stream handed to the client is errored with the fault. *)
Theorem errored_persists_partial env request chatId upstream e w :
  opens_session env request chatId upstream ->
  ending upstream = Fault e ->
  Store.healthy (store w) = true ->
  (concatenation (fragments_of (chunks upstream)) <> "" ->
   errored_persists_marked env request chatId upstream w) /\
  (concatenation (fragments_of (chunks upstream)) = "" ->
   persisted w (snd (StreamRoute.POST_interrupted env request w)) []) /\
  (exists s,
     fst (StreamRoute.POST_interrupted env request w)
       = Normal (mkResponse 200 StreamRoute.stream_headers (StreamBody s)) /\
     state s = Errored e).
Proof.
  intros Ho He Hh. unfold errored_persists_marked.
  rewrite (session_fault_interrupted _ _ _ _ _ _ Ho He); simpl.
  split; [|split].
  - intro Hne. apply truthy_true_nonempty in Hne. rewrite Hne.
    now apply persisted_insert.
  - intros ->. simpl. apply persisted_nothing.
  - eexists. split; reflexivity.
Qed.

Definition scenario_B : OpenAIStream :=
  {| chunks := [Demo.text "Par"]; ending := Fault Demo.transport_fault |}.

Lemma errored_persists_partial_witness :
  errored_persists_marked (Demo.streaming scenario_B) Demo.request "chat-1"
    scenario_B Demo.up.
Proof.
  refine (proj1 (errored_persists_partial (Demo.streaming scenario_B) Demo.request
                   "chat-1" scenario_B Demo.transport_fault Demo.up
                   (Demo.opens scenario_B) eq_refl eq_refl) _).
  simpl. discriminate.
Defined.

(** Scenario B, run. *)
Example scenario_B_run :
  map Message.content
      (Store.rows (store (snd (StreamRoute.POST_interrupted (Demo.streaming scenario_B)
                                 Demo.request Demo.up))))
  = ["Par [Response interrupted]"].
Proof. reflexivity. Qed.

(** ** The relay *)

(** On text of the ASCII range a [TextDecoder] gives each byte its
    character, wherever the transport cuts; the sessions run below
    carry such text. *)
Definition ascii_decode (value : list byte) : string := string_of_list_byte value.

(** The chat window as [handleSendMessage] leaves it before the first
    read: the request in flight, the in-progress message empty. *)
Definition waiting_window : StreamingChatWindow.Client :=
  streaming_client ascii_decode "chat-1" "1714564800000" "2024-05-01T12:00:00.000Z" [].

(** When the user presses Cancel in the sessions run below. *)
Definition cancel_time : string := "2024-05-01T12:00:01.000Z".


Definition interrupted_after_hello : OpenAIStream :=
  {| chunks := [Demo.text "Hello"] ++ [Demo.text ", "; Demo.text "world"];
     ending := Fault Demo.transport_fault |}.





(** A faulting session whose consumer kept pace, run: the three
    fragments were read before the stream was errored. *)
Example kept_pace_run :
  let s := Session.run ascii_decode "chat-1" cancel_time Session.Interruptions
             (Demo.streaming interrupted_after_hello) interrupted_after_hello
             (repeat Session.Read 4) waiting_window Demo.up in
  Session.ended s = Errored Demo.transport_fault /\
  Session.received s = [Js.encode "Hello"; Js.encode ", "; Js.encode "world"].
Proof. split; reflexivity. Qed.

(** ** Cancelled sessions *)

(** A decoder that gives back every fragment it is handed whole gives
    back their concatenation. *)
Lemma decoded_whole (decode : list byte -> string) (received : list string) :
  Forall (fun f => decode (Js.encode f) = f) received ->
  concatenation (map decode (map Js.encode received)) = concatenation received.
Proof.
  induction 1 as [|f fs Hf _ IH]; simpl; [reflexivity|].
  now rewrite Hf, IH.
Qed.

(** C4 as the specification words it: the session cancelled when
    [text] had been received leaves exactly one record, [text]
    followed by the cancellation marker. *)
Definition cancelled_persists_marked (w w' : World) (text : string) : Prop :=
  wrote w w' [text ++ StreamingChatWindow.cancelled_marker].

Definition the_answer_is_42 : OpenAIStream :=
  {| chunks := [Demo.text "The answer"; Demo.text " is 42"]; ending := CleanEnd |}.

Definition silence_then_answer : OpenAIStream :=
  {| chunks := [Demo.blank; Demo.text "The answer"]; ending := CleanEnd |}.

(** C4 fails twice.  Cancelled before any text has arrived (k = 0), a
    session leaves no record.  Cancelled after "The answer", with the
    route finishing before the server learns of it, a session leaves
    two: the one of the Cancel handler and the complete response. *)
Lemma cancelled_sessions_counterexample :
  (let s := Session.run ascii_decode "chat-1" cancel_time Session.Step2
              (Demo.streaming silence_then_answer) silence_then_answer
              [Session.Press; Session.Disconnect] waiting_window Demo.up in
   Store.rows (store (Session.outcome s)) = [] /\
   ~ cancelled_persists_marked Demo.up (Session.outcome s) (concatenation [])) /\
  (let s := Session.run ascii_decode "chat-1" cancel_time Session.Step2
              (Demo.streaming the_answer_is_42) the_answer_is_42
              [Session.Idle; Session.Arrive (Js.encode "The answer"); Session.Press]
              waiting_window Demo.up in
   map Message.content (Store.rows (store (Session.outcome s)))
   = ["The answer [Response cancelled]"; "The answer is 42"] /\
   ~ cancelled_persists_marked Demo.up (Session.outcome s) (concatenation ["The answer"])).
Proof.
  split; cbv zeta; (split; [reflexivity|]);
    intros (new & Hp & Hc); unfold persisted in Hp;
    cbn [Demo.up store Store.rows app] in Hp; rewrite <- Hp in Hc;
    vm_compute in Hc; discriminate.
Qed.

(** C4, amended.  The user presses Cancel when the loop has taken
    [pre] and the reading loop the values that came with [acts], whose
    decoded concatenation [seen] is the text on screen (the
    concatenation of the fragments themselves when they were handed
    over whole).  The Cancel handler aborts the request and writes one
    record, [seen] followed once by " [Response cancelled]", when
    [seen] is not empty, and none when it is empty; pressed again it
    does nothing.  The route goes on meanwhile.  When the stream is
    cancelled under it and a chunk with text follows, its enqueue
    throws: the Step 2 route writes nothing, so the session holds the
    handler's record alone, or no record if there was no text; the
    route with the interruption handling adds a second record, the
    text it had accumulated followed by " [Response interrupted]".
    Whatever the order of events, a session holds at most one record of
    the handler and one (Step 2) or two (interruption handling) of the
    route. *)
Theorem cancelled_persists_partial decode chatId stamp k env pre chunk post fin
    acts later stamp0 now0 w :
  List.length acts = List.length pre ->
  forallb Session.quiet acts = true ->
  existsb Js.truthy (fragments_of post) = true ->
  Store.healthy (store w) = true ->
  let upstream := {| chunks := pre ++ chunk :: post; ending := fin |} in
  let seen := concatenation (map decode (arrivals acts)) in
  let pressed :=
    StreamingChatWindow.handleCancelResponse chatId stamp
      (streaming_client decode chatId stamp0 now0 (arrivals acts)) w in
  let s := Session.run decode chatId stamp k env upstream
             (acts ++ Session.Press :: Session.Disconnect :: later)
             (streaming_client decode chatId stamp0 now0 []) w in
  (forall received,
     arrivals acts = map Js.encode received ->
     Forall (fun f => decode (Js.encode f) = f) received ->
     seen = concatenation received) /\
  (StreamingChatWindow.fetch_aborted (fst pressed) = true /\
   StreamingChatWindow.abortController (fst pressed) = None /\
   (forall again w',
      StreamingChatWindow.handleCancelResponse chatId again (fst pressed) w'
      = (fst pressed, w')) /\
   (seen <> "" ->
    cancelled_persists_marked w (snd pressed) seen /\
    StreamingChatWindow.streamingMessage (fst pressed) = None) /\
   (seen = "" ->
    wrote w (snd pressed) [] /\
    option_map Message.content (StreamingChatWindow.streamingMessage (fst pressed))
    = Some StreamingChatWindow.cancelled_marker)) /\
  (Session.ended s = Closed /\
   match k with
   | Session.Step2 =>
       (seen <> "" -> cancelled_persists_marked w (Session.outcome s) seen) /\
       (seen = "" -> wrote w (Session.outcome s) [])
   | Session.Interruptions =>
       exists j,
         wrote w (Session.outcome s)
           ((if Js.truthy seen then [seen ++ StreamingChatWindow.cancelled_marker] else [])
            ++ [concatenation (fragments_of (pre ++ chunk :: firstn j post))
                ++ StreamRoute.interrupted_marker])
   end) /\
  (forall script c,
     exists new,
       persisted w
         (Session.outcome (Session.run decode chatId stamp k env upstream script c w)) new /\
       List.length new <= route_writes k + pending c).
Proof.
  intros Hlen Hq Hex Hh. cbv zeta. split; [|split; [|split]].
  - intros received Ha Hw. rewrite Ha. now apply decoded_whole.
  - rewrite cancel_run.
    destruct (Js.truthy (concatenation (map decode (arrivals acts)))) eqn:E;
      cbn [fst snd StreamingChatWindow.fetch_aborted StreamingChatWindow.abortController
           StreamingChatWindow.streamingMessage].
    + split; [reflexivity|]. split; [reflexivity|].
      split; [intros; now apply cancel_again|]. split.
      * intros _. split; [|reflexivity].
        apply (wrote_insert w chatId _ stamp (console w) Hh).
      * intro H0. rewrite H0 in E. discriminate.
    + apply truthy_false_empty in E.
      split; [reflexivity|]. split; [reflexivity|].
      split; [intros; now apply cancel_again|]. split.
      * intro H0. contradiction.
      * intros _. split; [now apply wrote_nothing|].
        cbn [StreamingChatWindow.mark_cancelled option_map Message.content].
        now rewrite reading_content, E.
  - destruct (cancelled_noticed decode chatId stamp k env pre chunk post fin acts later
                stamp0 now0 w Hlen Hq Hex Hh) as (Hc & j & Hwr).
    split; [exact Hc|]. destruct k.
    + rewrite app_nil_r in Hwr. split.
      * intro Hne. apply truthy_true_nonempty in Hne. rewrite Hne in Hwr. exact Hwr.
      * intro H0. rewrite H0 in Hwr. exact Hwr.
    + exists j. exact Hwr.
  - intros script c. apply run_rows.
Qed.

Definition answer_in_four : OpenAIStream :=
  {| chunks := [Demo.text "The answer"; Demo.text " is"]
               ++ Demo.text " 42" :: [Demo.text "."];
     ending := CleanEnd |}.

Lemma cancelled_persists_partial_witness :
  cancelled_persists_marked Demo.up
    (Session.outcome
       (Session.run ascii_decode "chat-1" cancel_time Session.Step2
          (Demo.streaming answer_in_four) answer_in_four
          ([Session.Idle; Session.Arrive (Js.encode "The answer")]
           ++ Session.Press :: Session.Disconnect :: [])
          waiting_window Demo.up))
    (concatenation ["The answer"]).
Proof.
  destruct (cancelled_persists_partial ascii_decode "chat-1" cancel_time Session.Step2
              (Demo.streaming answer_in_four)
              [Demo.text "The answer"; Demo.text " is"] (Demo.text " 42") [Demo.text "."]
              CleanEnd
              [Session.Idle; Session.Arrive (Js.encode "The answer")] []
              "1714564800000" "2024-05-01T12:00:00.000Z" Demo.up
              eq_refl eq_refl eq_refl eq_refl) as (Hw & _ & (_ & Hs) & _).
  rewrite <- (Hw ["The answer"] eq_refl
                (Forall_cons _ eq_refl (Forall_nil _))).
  apply (proj1 Hs). vm_compute. discriminate.
Defined.

(** Scenario C, run: cancelled after "The answer" while the route
    awaits the end of the upstream, the stream cancelled under the
    route while it awaits its insert. *)
Example scenario_C_run :
  let run k :=
    Session.run ascii_decode "chat-1" cancel_time k
      (Demo.streaming the_answer_is_42) the_answer_is_42
      [Session.Idle; Session.Arrive (Js.encode "The answer"); Session.Press;
       Session.Disconnect]
      waiting_window Demo.up in
  map Message.content (Store.rows (store (Session.outcome (run Session.Step2))))
  = ["The answer [Response cancelled]"; "The answer is 42"] /\
  map Message.content (Store.rows (store (Session.outcome (run Session.Interruptions))))
  = ["The answer [Response cancelled]"; "The answer is 42";
     "The answer is 42 [Response interrupted]"].
Proof. split; reflexivity. Qed.

(** ** How many records a session writes *)

(** C1 as the specification words it: the run from [w] to [w'] wrote
    exactly one row. *)
Definition writes_exactly_one (w w' : World) : Prop :=
  exists row, persisted w w' [row].

Definition fault_after_blank_chunk : OpenAIStream :=
  {| chunks := [Demo.blank]; ending := Fault Demo.transport_fault |}.

(** C1 fails on both sides.  A session that reaches Errored after a
    chunk that carried no text writes no row at all.  A session
    cancelled while the route awaits the end of the upstream, the
    stream being cancelled under the route while it awaits its insert,
    writes three: the Cancel handler's, the complete response, and the
    one of the catch block that the throwing [controller.close()]
    leads to. *)
Lemma session_rows_counterexample :
  (opens_session (Demo.streaming fault_after_blank_chunk) Demo.request "chat-1"
     fault_after_blank_chunk /\
   Store.healthy (store Demo.up) = true /\
   ~ writes_exactly_one Demo.up
       (snd (StreamRoute.POST_interrupted (Demo.streaming fault_after_blank_chunk)
               Demo.request Demo.up))) /\
  (let s := Session.run ascii_decode "chat-1" cancel_time Session.Interruptions
              (Demo.streaming the_answer_is_42) the_answer_is_42
              [Session.Idle; Session.Arrive (Js.encode "The answer"); Session.Press;
               Session.Disconnect]
              waiting_window Demo.up in
   map Message.content (Store.rows (store (Session.outcome s)))
   = ["The answer [Response cancelled]"; "The answer is 42";
      "The answer is 42 [Response interrupted]"] /\
   ~ writes_exactly_one Demo.up (Session.outcome s)).
Proof.
  split.
  - split; [apply Demo.opens|]. split; [reflexivity|].
    intros [row H]. unfold persisted in H. simpl in H. discriminate.
  - cbv zeta. split; [reflexivity|].
    intros [row H]. unfold persisted in H.
    apply (f_equal (@List.length Message.t)) in H. vm_compute in H. discriminate.
Qed.

(** C1, amended.  With nobody reading or cancelling, the session is
    the route's own run, and its stream the body of the response.
    Whatever happens around the route, a session adds to the table at
    most one row per insert the route can reach (one in Step 2, two
    with the interruption handling) and one row of the Cancel handler
    if a request is pending; no row is ever removed.  In a session
    nobody cancels, the store accepting inserts: a Completed session
    writes exactly one row, the accumulated text, also with no fragment
    received; an Errored session writes nothing in the Step 2 route,
    and with the interruption handling exactly one row, the text
    followed by the marker, when the text is not empty and none when it
    is empty. *)
Theorem session_writes_bounded decode chatId stamp k env request upstream w :
  opens_session env request chatId upstream ->
  let text := concatenation (fragments_of (chunks upstream)) in
  let run script c := Session.run decode chatId stamp k env upstream script c w in
  (forall c,
     StreamRoute.POST (handler_of k) env request w
     = (Normal (mkResponse 200 StreamRoute.stream_headers
                  (StreamBody (StreamRoute.controller (Session.frame (run [] c))))),
        Session.outcome (run [] c))) /\
  (forall script c,
     exists new,
       persisted w (Session.outcome (run script c)) new /\
       List.length new <= route_writes k + pending c) /\
  (forall script c,
     forallb Session.quiet script = true ->
     Store.healthy (store w) = true ->
     (ending upstream = CleanEnd ->
      persisted w (Session.outcome (run script c))
        [assistant_row (store w) chatId text (now env)]) /\
     (forall e, ending upstream = Fault e ->
        match k with
        | Session.Step2 => persisted w (Session.outcome (run script c)) []
        | Session.Interruptions =>
            (text <> "" ->
             persisted w (Session.outcome (run script c))
               [assistant_row (store w) chatId
                  (text ++ StreamRoute.interrupted_marker) (now env)]) /\
            (text = "" -> persisted w (Session.outcome (run script c)) [])
        end)).
Proof.
  intros Ho. cbv zeta. split; [|split].
  - intro c. rewrite (stream_POST_opens _ _ _ _ _ _ Ho).
    destruct (run_idle decode chatId stamp k env upstream c w) as [H1 _].
    now rewrite H1.
  - intros script c. apply run_rows.
  - intros script c Hq Hh. split.
    + intro He.
      destruct (run_quiet_clean decode chatId stamp env upstream script c w k Hq He)
        as (Hw & _). rewrite Hw. now apply persisted_insert.
    + intros e He.
      destruct (run_quiet_fault decode chatId stamp env upstream script c w k e Hq He)
        as (Hw & _). rewrite Hw. destruct k.
      * apply persisted_nothing.
      * split.
        -- intro Hne. apply truthy_true_nonempty in Hne. rewrite Hne.
           now apply persisted_insert.
        -- intros ->. apply persisted_nothing.
Qed.

Lemma session_writes_bounded_witness :
  writes_exactly_one Demo.up
    (Session.outcome
       (Session.run ascii_decode "chat-1" cancel_time Session.Interruptions
          (Demo.streaming scenario_A) scenario_A
          [Session.Read; Session.Arrive (Js.encode "Hello"); Session.Read]
          waiting_window Demo.up)).
Proof.
  destruct (session_writes_bounded ascii_decode "chat-1" cancel_time Session.Interruptions
              (Demo.streaming scenario_A) Demo.request scenario_A Demo.up
              (Demo.opens scenario_A)) as (_ & _ & H).
  eexists.
  exact (proj1 (H [Session.Read; Session.Arrive (Js.encode "Hello"); Session.Read]
                  waiting_window eq_refl eq_refl) eq_refl).
Defined.


(** ** The conversation builder *)

(** C6.  For every chat (or none), history [H] and new turn [T], the
    array sent to the route is the optional system turn, then [H] in its
    order, then [T]: a system turn is present exactly when the chat has
    a non-empty system prompt and then stands first with that prompt as
    content; position [i] after it holds what [H ++ [T]] holds at [i];
    [T] is last.  The builder is a total function of its three inputs. *)
Theorem conversation_builder_shape (chat : option Chat.t) (H : list Message.t)
    (T : Message.t) :
  let sys := ChatWindow.system_turn chat in
  let out := ChatWindow.allMessages chat H T in
  out = (sys ++ H ++ [T])%list /\
  sys = match chat with
        | Some c =>
            if Js.truthy (Chat.system_prompt c)
            then [Message.mk None None system (Chat.system_prompt c) None]
            else []
        | None => []
        end /\
  List.length sys <= 1 /\
  List.length out = List.length sys + List.length H + 1 /\
  firstn (List.length sys) out = sys /\
  (forall i, nth_error out (List.length sys + i) = nth_error (H ++ [T]) i) /\
  removelast (skipn (List.length sys) out) = H /\
  last out T = T /\
  nth_error out (List.length sys + List.length H) = Some T.
Proof.
  intros sys out. subst out. unfold ChatWindow.allMessages. fold sys.
  split; [reflexivity|]. split; [reflexivity|].
  split.
  { subst sys. unfold ChatWindow.system_turn.
    destruct chat as [c|]; [destruct (Js.truthy _)|]; simpl; lia. }
  split; [rewrite !length_app; simpl; lia|].
  split; [now rewrite firstn_app, Nat.sub_diag, firstn_all, app_nil_r|].
  split; [intro i; now rewrite nth_error_app2, Nat.add_comm, Nat.add_sub by lia|].
  split.
  { rewrite skipn_app, Nat.sub_diag, skipn_all. simpl. apply removelast_last. }
  split.
  { rewrite app_assoc. apply last_last. }
  rewrite nth_error_app2 by lia.
  replace (List.length sys + List.length H - List.length sys) with (List.length H) by lia.
  rewrite nth_error_app2 by lia. now rewrite Nat.sub_diag.
Qed.

(** The builder on the demo chat: system prompt, history, new turn. *)
Example conversation_builder_run :
  map (fun m => (Message.role m, Message.content m))
      (ChatWindow.allMessages (Some Demo.chat)
         [ChatWindow.userMessage "chat-1" "Hi" "t0";
          assistant_message "chat-1" "Hello!" "t1"]
         (ChatWindow.userMessage "chat-1" "Bye" "t2"))
  = [(system, "You are a helpful assistant."); (user, "Hi");
     (assistant, "Hello!"); (user, "Bye")].
Proof. reflexivity. Qed.

(** ** Failures before the stream opens *)

(** What the caller of a route is answered when the provider rejects
    the request with [failure] before any stream exists. *)
Definition surfaced (route : Env -> Request -> Eff World Response) (failure : ApiError)
  : Completion Response :=
  fst (route (Demo.env (inl failure) (inl failure)) Demo.request Demo.up).

(** C7 fails in its second half: a rate-limit rejection and a
    context-too-long rejection are answered with the very same response
    by the streaming route and by the non-streaming route. *)
Lemma upstream_rejections_indistinct_counterexample :
  ~ (surfaced StreamRoute.POST_basic Demo.rate_limited
       <> surfaced StreamRoute.POST_basic Demo.context_too_long) /\
  ~ (surfaced ChatRoute.POST Demo.rate_limited
       <> surfaced ChatRoute.POST Demo.context_too_long).
Proof. split; intro H; apply H; reflexivity. Qed.

(** C7, amended.  When the provider rejects the request before a stream
    exists, whatever the rejection, no row is written and the caller is
    answered HTTP 500 with the body [{ error: 'Internal server error' }]:
    by the streaming route with either catch block, and by the
    non-streaming route.  The kind of rejection shows only in the two
    lines the server logs.  A fault raised inside an opened stream
    before any text has arrived writes no row either and errors the
    stream handed to the caller. *)
Theorem upstream_rejection_is_generic_500 env request messages chatId e upstream w :
  json request = Some (messages, chatId) ->
  authorized env request chatId = true ->
  (completions_stream env messages = inl e ->
   forall handler,
     StreamRoute.POST handler env request w =
       (Normal (mkResponse 500 [("Content-Type", "application/json")]
                  (JsonError "Internal server error")),
        mkWorld (store w)
          (console w ++ [("Error generating streaming chat completion:", LogApi e)]
                     ++ [("Error in streaming API route:", LogApi e)]))) /\
  (completions_create env messages = inl e ->
   ChatRoute.POST env request w =
     (Normal (mkResponse 500 [("Content-Type", "application/json")]
                (JsonError "Internal server error")),
      mkWorld (store w)
        (console w ++ [("Error generating chat completion:", LogApi e)]
                   ++ [("Error in chat API route:", LogApi e)]))) /\
  (completions_stream env messages = inr upstream ->
   ending upstream = Fault e ->
   concatenation (fragments_of (chunks upstream)) = "" ->
   forall route,
     route = StreamRoute.POST_basic \/ route = StreamRoute.POST_interrupted ->
     persisted w (snd (route env request w)) [] /\
     fst (route env request w) =
       Normal (mkResponse 200 StreamRoute.stream_headers
                 (StreamBody (mkStream [] (Errored e))))).
Proof.
  intros Hj Ha. split; [|split]; intros He.
  3: { intros Hf Hz route Hr.
       assert (Ho : opens_session env request chatId upstream)
         by (exists messages; auto).
       destruct Hr as [-> | ->].
       - rewrite (session_fault_basic _ _ _ _ _ _ Ho Hf); simpl.
         split; [apply persisted_nothing | reflexivity].
       - rewrite (session_fault_interrupted _ _ _ _ _ _ Ho Hf); simpl.
         rewrite Hz. split; [apply persisted_nothing | reflexivity]. }
  - intro handler.
    unfold StreamRoute.POST, try_catch, request_json. rewrite Hj.
    unfold bind at 1, ret at 1. rewrite (guarded_authorized _ _ _ _ _ Ha).
    unfold bind at 1, generateStreamingChatCompletion, try_catch. rewrite He.
    unfold throw, bind, console_error, modify, ret; simpl.
    now rewrite <- app_assoc.
  - unfold ChatRoute.POST, try_catch, request_json. rewrite Hj.
    unfold bind at 1, ret at 1. rewrite (guarded_authorized _ _ _ _ _ Ha).
    unfold bind at 1, generateChatCompletion, try_catch. rewrite He.
    unfold throw, bind, console_error, modify, ret; simpl.
    now rewrite <- app_assoc.
Qed.

Lemma upstream_rejection_is_generic_500_witness :
  StreamRoute.POST_interrupted (Demo.env (inl Demo.rate_limited) (inl Demo.rate_limited))
    Demo.request Demo.up
  = (Normal (mkResponse 500 [("Content-Type", "application/json")]
               (JsonError "Internal server error")),
     mkWorld (store Demo.up)
       (console Demo.up
          ++ [("Error generating streaming chat completion:", LogApi Demo.rate_limited)]
          ++ [("Error in streaming API route:", LogApi Demo.rate_limited)])).
Proof.
  exact (proj1 (upstream_rejection_is_generic_500
                  (Demo.env (inl Demo.rate_limited) (inl Demo.rate_limited))
                  Demo.request Demo.conversation "chat-1" Demo.rate_limited
                  fault_before_first_fragment Demo.up eq_refl eq_refl)
               eq_refl StreamRoute.catch_interrupted).
Defined.

(** ** A failing final write *)

(** C8, on the streaming route: with the store refusing the insert,
    Scenario A still ends in a normally closed stream under HTTP 200,
    nothing is logged and no row exists.  The failed write is reported
    nowhere. *)
Theorem stream_insert_failure_unreported :
  StreamRoute.POST_basic (Demo.streaming scenario_A) Demo.request Demo.down
  = (Normal (mkResponse 200 StreamRoute.stream_headers
               (StreamBody (mkStream [Js.encode "Hello"; Js.encode ", "; Js.encode "world"]
                                     Closed))),
     Demo.down)
  /\ console Demo.down = []
  /\ Store.rows (store Demo.down) = [].
Proof. repeat split. Qed.

(** The non-streaming route on the same store: the failed write is
    logged under its own label and answered with its own error. *)
Example chat_insert_failure_reported :
  ChatRoute.POST
    (Demo.env (inr {| completion_choices := [Some "Hello, world"] |}) Demo.no_stream)
    Demo.request Demo.down
  = (Normal (NextResponse_json (JsonError "Failed to save AI response") 500),
     mkWorld (store Demo.down)
       [("Error inserting AI response:",
         LogPg {| code := "57P01"; details := "terminating connection" |})]).
Proof. reflexivity. Qed.

(** ** The fallback of the non-streaming route *)

(** C9.  In the non-streaming route, whatever completion the provider
    returns, the row written has a non-empty content and the route
    answers [{ success: true }]; when the completion is [null] or the
    empty string, the content is the fixed fallback sentence. *)
Theorem fallback_on_empty_completion env request messages chatId completion c rest w :
  json request = Some (messages, chatId) ->
  authorized env request chatId = true ->
  completions_create env messages = inr completion ->
  completion_choices completion = c :: rest ->
  Store.healthy (store w) = true ->
  exists content w',
    ChatRoute.POST env request w = (Normal (NextResponse_json JsonSuccess 200), w') /\
    persisted w w' [assistant_row (store w) chatId content (now env)] /\
    console w' = console w /\
    content <> "" /\
    (Js.truthy_opt c = false ->
     content = "I apologize, but I was unable to generate a response.").
Proof.
  intros Hj Ha Hc Hch Hh.
  exists (Js.or c fallback_response).
  eexists. split; [|split; [|split; [|split]]].
  - unfold ChatRoute.POST, try_catch, request_json. rewrite Hj.
    unfold bind at 1, ret at 1. rewrite (guarded_authorized _ _ _ _ _ Ha).
    unfold bind at 1, generateChatCompletion, try_catch. rewrite Hc, Hch.
    unfold ret at 1. unfold bind at 1, messages_insert.
    destruct (insert_healthy
                (assistant_message chatId (Js.or c fallback_response) (now env))
                (store w) Hh) as [_ Hnone].
    destruct (Store.insert _ (store w)) as [err st] eqn:Hins. simpl in Hnone.
    subst err. unfold ret.
    replace st with (snd (Store.insert
                       (assistant_message chatId (Js.or c fallback_response) (now env))
                       (store w))) by (now rewrite Hins).
    reflexivity.
  - now apply persisted_insert.
  - reflexivity.
  - apply truthy_true_nonempty. now apply or_empty_truthy.
  - intro Hf. now apply or_falsy.
Qed.

Lemma fallback_on_empty_completion_witness :
  exists content w',
    ChatRoute.POST
      (Demo.env (inr {| completion_choices := [None] |}) Demo.no_stream)
      Demo.request Demo.up
    = (Normal (NextResponse_json JsonSuccess 200), w') /\
    persisted Demo.up w'
      [assistant_row (store Demo.up) "chat-1" content "2024-05-01T12:00:00.000Z"] /\
    console w' = console Demo.up /\
    content <> "" /\
    (Js.truthy_opt None = false ->
     content = "I apologize, but I was unable to generate a response.").
Proof.
  exact (fallback_on_empty_completion
           (Demo.env (inr {| completion_choices := [None] |}) Demo.no_stream)
           Demo.request Demo.conversation "chat-1"
           {| completion_choices := [None] |} None [] Demo.up
           eq_refl eq_refl eq_refl eq_refl eq_refl).
Defined.

(** The fallback, run: a [null] completion and an empty one. *)
Example fallback_run :
  map (fun c =>
         map Message.content
           (Store.rows (store (snd (ChatRoute.POST
              (Demo.env (inr {| completion_choices := [c] |}) Demo.no_stream)
              Demo.request Demo.up)))))
      [None; Some ""; Some "Hi there"]
  = [["I apologize, but I was unable to generate a response."];
     ["I apologize, but I was unable to generate a response."];
     ["Hi there"]].
Proof. reflexivity. Qed.


(** * Further properties of the routes *)

(** Dropping the empty fragments changes nothing in the text. *)
Lemma concatenation_truthy (l : list string) :
  concatenation (filter Js.truthy l) = concatenation l.
Proof.
  induction l as [|a l IH]; simpl; [reflexivity|].
  destruct (Js.truthy a) eqn:E; simpl; rewrite IH; [reflexivity|].
  now rewrite (truthy_false_empty _ E).
Qed.


(** The non-streaming route always answers, and its answer tells the
    truth about the table: under [{ success: true }] (status 200) exactly
    one assistant row with a non-empty content was added; under any
    other answer the body is [{ error }] and the table is as it was. *)
Theorem chat_route_success_iff_persisted (env : Env) (request : Request) (w : World) :
  exists r w',
    ChatRoute.POST env request w = (Normal r, w') /\
    ((http_status r = 200 /\ body r = JsonSuccess /\
      exists chatId content,
        content <> "" /\
        persisted w w' [assistant_row (store w) chatId content (now env)])
     \/
     (http_status r <> 200 /\ (exists msg, body r = JsonError msg) /\
      store w' = store w)).
Proof.
  unfold ChatRoute.POST, try_catch, request_json.
  destruct (json request) as [[messages chatId]|]; simpl.
  2: { do 2 eexists. split; [reflexivity|]. right.
       split; [discriminate|]. split; [eexists|]; reflexivity. }
  unfold bind at 1, ret at 1. unfold guarded.
  destruct (negb _).
  { do 2 eexists. split; [reflexivity|]. right.
    split; [discriminate|]. split; [eexists|]; reflexivity. }
  destruct (auth_error (auth_getUser env)), (data_user (auth_getUser env)) as [u|];
    try (do 2 eexists; split; [reflexivity|]; right;
         split; [discriminate|]; split; [eexists|]; reflexivity).
  destruct (chat_error (chats_single env chatId (User.id u))),
           (data (chats_single env chatId (User.id u)));
    try (do 2 eexists; split; [reflexivity|]; right;
         split; [discriminate|]; split; [eexists|]; reflexivity).
  unfold bind at 1, generateChatCompletion, try_catch.
  destruct (completions_create env messages) as [e|completion]; simpl.
  { do 2 eexists. split; [reflexivity|]. right.
    split; [discriminate|]. split; [eexists|]; reflexivity. }
  destruct (completion_choices completion) as [|c rest]; simpl.
  { do 2 eexists. split; [reflexivity|]. right.
    split; [discriminate|]. split; [eexists|]; reflexivity. }
  unfold bind, messages_insert, Store.insert.
  destruct (Store.outage (store w)) as [e|] eqn:Ho; simpl.
  - do 2 eexists. split; [reflexivity|]. right.
    split; [discriminate|]. split; [eexists|]; reflexivity.
  - do 2 eexists. split; [reflexivity|]. left.
    split; [reflexivity|]. split; [reflexivity|].
    exists chatId, (Js.or c fallback_response). split.
    + apply truthy_true_nonempty. now apply or_empty_truthy.
    + reflexivity.
Qed.

(** A request that fails one of the three guards (no or empty session
    cookie, no authenticated user, chat missing or owned by someone
    else) is answered 401 or 403 by every route, and nothing else
    happens: the table and the log are untouched. *)
Theorem unauthorized_request_changes_nothing env request messages chatId w :
  json request = Some (messages, chatId) ->
  authorized env request chatId = false ->
  forall route,
    In route [ChatRoute.POST; StreamRoute.POST_basic; StreamRoute.POST_interrupted] ->
    exists r,
      route env request w = (Normal r, w) /\
      (http_status r = 401 \/ http_status r = 403) /\
      (body r = JsonError "Unauthorized"
       \/ body r = JsonError "Chat not found or access denied").
Proof.
  intros Hj Ha route Hr.
  assert (Hg : forall (deny : string -> nat -> Response) (k : Eff World Response),
             (forall msg st, http_status (deny msg st) = st /\ body (deny msg st) = JsonError msg) ->
             exists r, guarded env request chatId deny k w = (Normal r, w) /\
                       (http_status r = 401 \/ http_status r = 403) /\
                       (body r = JsonError "Unauthorized"
                        \/ body r = JsonError "Chat not found or access denied")).
  { intros deny k Hd. unfold guarded. unfold authorized in Ha.
    destruct (Js.truthy_opt _); simpl in *.
    2: { eexists. split; [reflexivity|]. destruct (Hd "Unauthorized" 401) as [-> ->]. auto. }
    destruct (auth_error (auth_getUser env)), (data_user (auth_getUser env)) as [u|];
      try (eexists; split; [reflexivity|];
           destruct (Hd "Unauthorized" 401) as [-> ->]; auto).
    destruct (chat_error (chats_single env chatId (User.id u))),
             (data (chats_single env chatId (User.id u)));
      try discriminate;
      (eexists; split; [reflexivity|];
       destruct (Hd "Chat not found or access denied" 403) as [-> ->]; auto). }
  simpl in Hr. destruct Hr as [<- | [<- | [<- | []]]].
  - unfold ChatRoute.POST, try_catch, request_json. rewrite Hj.
    unfold bind at 1, ret at 1.
    match goal with |- context [guarded _ _ _ ?d ?k w] =>
      destruct (Hg d k) as (r & -> & H1 & H2); [split; reflexivity|] end.
    exists r. auto.
  - unfold StreamRoute.POST_basic, StreamRoute.POST, try_catch, request_json. rewrite Hj.
    unfold bind at 1, ret at 1.
    match goal with |- context [guarded _ _ _ ?d ?k w] =>
      destruct (Hg d k) as (r & -> & H1 & H2); [split; reflexivity|] end.
    exists r. auto.
  - unfold StreamRoute.POST_interrupted, StreamRoute.POST, try_catch, request_json. rewrite Hj.
    unfold bind at 1, ret at 1.
    match goal with |- context [guarded _ _ _ ?d ?k w] =>
      destruct (Hg d k) as (r & -> & H1 & H2); [split; reflexivity|] end.
    exists r. auto.
Qed.

Lemma unauthorized_request_changes_nothing_witness :
  exists r,
    StreamRoute.POST_interrupted (Demo.streaming scenario_A)
      (mkRequest (Some (Demo.conversation, "chat-2")) [("sb-access-token", "jwt")])
      Demo.up = (Normal r, Demo.up) /\
    (http_status r = 401 \/ http_status r = 403) /\
    (body r = JsonError "Unauthorized"
     \/ body r = JsonError "Chat not found or access denied").
Proof.
  apply (unauthorized_request_changes_nothing (Demo.streaming scenario_A)
           (mkRequest (Some (Demo.conversation, "chat-2")) [("sb-access-token", "jwt")])
           Demo.conversation "chat-2" Demo.up eq_refl eq_refl).
  simpl. auto.
Defined.

(** When the store refuses the insert, the non-streaming route logs the
    store's error under its own label, answers 500 with
    'Failed to save AI response', and the table is as it was. *)
Theorem chat_route_reports_failed_insert env request messages chatId completion c rest e w :
  json request = Some (messages, chatId) ->
  authorized env request chatId = true ->
  completions_create env messages = inr completion ->
  completion_choices completion = c :: rest ->
  Store.outage (store w) = Some e ->
  ChatRoute.POST env request w =
    (Normal (mkResponse 500 [("Content-Type", "application/json")]
               (JsonError "Failed to save AI response")),
     mkWorld (store w) (console w ++ [("Error inserting AI response:", LogPg e)])).
Proof.
  intros Hj Ha Hc Hch Ho.
  unfold ChatRoute.POST, try_catch, request_json. rewrite Hj.
  unfold bind at 1, ret at 1. rewrite (guarded_authorized _ _ _ _ _ Ha).
  unfold bind at 1, generateChatCompletion, try_catch. rewrite Hc, Hch.
  unfold ret at 1. unfold bind, messages_insert, Store.insert. rewrite Ho.
  reflexivity.
Qed.

Lemma chat_route_reports_failed_insert_witness :
  ChatRoute.POST
    (Demo.env (inr {| completion_choices := [Some "Hello, world"] |}) Demo.no_stream)
    Demo.request Demo.down
  = (Normal (mkResponse 500 [("Content-Type", "application/json")]
               (JsonError "Failed to save AI response")),
     mkWorld (store Demo.down)
       (console Demo.down
        ++ [("Error inserting AI response:",
             LogPg {| code := "57P01"; details := "terminating connection" |})])).
Proof.
  exact (chat_route_reports_failed_insert
           (Demo.env (inr {| completion_choices := [Some "Hello, world"] |}) Demo.no_stream)
           Demo.request Demo.conversation "chat-1"
           {| completion_choices := [Some "Hello, world"] |} (Some "Hello, world") []
           {| code := "57P01"; details := "terminating connection" |} Demo.down
           eq_refl eq_refl eq_refl eq_refl eq_refl).
Defined.

(** The body is parsed before the guards run: a request whose body is
    not JSON is answered 500 'Internal server error' by every route,
    whether or not it carries a session, with one line in the log and no
    change to the table. *)
Theorem malformed_body_is_internal_error env request w :
  json request = None ->
  let e := {| status := None; message := "Unexpected end of JSON input" |} in
  ChatRoute.POST env request w =
    (Normal (mkResponse 500 [("Content-Type", "application/json")]
               (JsonError "Internal server error")),
     mkWorld (store w) (console w ++ [("Error in chat API route:", LogApi e)])) /\
  forall handler,
    StreamRoute.POST handler env request w =
      (Normal (mkResponse 500 [("Content-Type", "application/json")]
                 (JsonError "Internal server error")),
       mkWorld (store w) (console w ++ [("Error in streaming API route:", LogApi e)])).
Proof.
  intros Hj e. split; [|intro handler];
    unfold ChatRoute.POST, StreamRoute.POST, try_catch, request_json;
    rewrite Hj; reflexivity.
Qed.

Lemma malformed_body_is_internal_error_witness :
  fst (ChatRoute.POST (Demo.streaming scenario_A) (mkRequest None []) Demo.up)
  = Normal (mkResponse 500 [("Content-Type", "application/json")]
              (JsonError "Internal server error")).
Proof.
  now rewrite (proj1 (malformed_body_is_internal_error (Demo.streaming scenario_A)
                        (mkRequest None []) Demo.up eq_refl)).
Defined.

(** A refused insert is invisible in the streaming route: when the
    upstream ends cleanly and the store answers the insert with an
    error, the client gets every fragment and a normally closed stream
    under status 200, and the world (table and log) is exactly as it
    was, for either catch block. *)
Theorem stream_route_hides_failed_insert handler env request chatId upstream err w :
  opens_session env request chatId upstream ->
  ending upstream = CleanEnd ->
  Store.outage (store w) = Some err ->
  StreamRoute.POST handler env request w =
    (Normal (mkResponse 200 StreamRoute.stream_headers
       (StreamBody (mkStream
          (map Js.encode (filter Js.truthy (fragments_of (chunks upstream)))) Closed))),
     w).
Proof.
  intros Ho He Hout. rewrite (session_clean _ _ _ _ _ _ Ho He).
  unfold Store.insert. rewrite Hout. simpl. now destruct w.
Qed.

Lemma stream_route_hides_failed_insert_witness :
  StreamRoute.POST_interrupted (Demo.streaming scenario_A) Demo.request Demo.down =
    (Normal (mkResponse 200 StreamRoute.stream_headers
       (StreamBody (mkStream
          (map Js.encode (filter Js.truthy (fragments_of (chunks scenario_A)))) Closed))),
     Demo.down).
Proof.
  exact (stream_route_hides_failed_insert StreamRoute.catch_interrupted
           (Demo.streaming scenario_A) Demo.request "chat-1" scenario_A
           {| code := "57P01"; details := "terminating connection" |} Demo.down
           (Demo.opens scenario_A) eq_refl eq_refl).
Defined.


(** In the route of Step 2 a fault loses the text: whatever had been
    relayed before the fault, the table is as it was and the server has
    one more log line; the stream is errored and its queue reset, so
    what the consumer had not read by then is dropped. *)
Theorem basic_route_drops_partial_text env request chatId upstream e w :
  opens_session env request chatId upstream ->
  ending upstream = Fault e ->
  exists s w',
    StreamRoute.POST_basic env request w =
      (Normal (mkResponse 200 StreamRoute.stream_headers (StreamBody s)), w') /\
    store w' = store w /\
    console w' = (console w ++ [("Error processing stream:", LogApi e)])%list /\
    state s = Errored e /\
    queue s = [] /\
    StreamRoute.delivered s = [].
Proof.
  intros Ho He. do 2 eexists.
  split; [apply (session_fault_basic _ _ _ _ _ _ Ho He)|].
  repeat split.
Qed.

Lemma basic_route_drops_partial_text_witness :
  exists s w',
    StreamRoute.POST_basic (Demo.streaming scenario_B) Demo.request Demo.up =
      (Normal (mkResponse 200 StreamRoute.stream_headers (StreamBody s)), w') /\
    store w' = store Demo.up /\
    console w' = (console Demo.up
                  ++ [("Error processing stream:", LogApi Demo.transport_fault)])%list /\
    state s = Errored Demo.transport_fault /\
    queue s = [] /\
    StreamRoute.delivered s = [].
Proof.
  exact (basic_route_drops_partial_text (Demo.streaming scenario_B) Demo.request "chat-1"
           scenario_B Demo.transport_fault Demo.up (Demo.opens scenario_B) eq_refl).
Defined.

(** What is sent is what is saved: the body of a cleanly ended session
    is, byte for byte, the encoding of the content of the row the route
    persisted.  When the chunks reach the chat window as they were
    enqueued and its decoder gives back each fragment it is handed
    whole, the in-progress message ends with exactly that content. *)
Theorem streamed_text_equals_saved_text handler env request chatId upstream decode stamp w :
  opens_session env request chatId upstream ->
  ending upstream = CleanEnd ->
  Store.healthy (store w) = true ->
  exists s w' row,
    StreamRoute.POST handler env request w =
      (Normal (mkResponse 200 StreamRoute.stream_headers (StreamBody s)), w') /\
    persisted w w' [row] /\
    StreamRoute.delivered s = Js.encode (Message.content row) /\
    (Forall (fun f => decode (Js.encode f) = f) (fragments_of (chunks upstream)) ->
     Message.content
       (StreamingChatWindow.reading decode chatId stamp (now env) (queue s))
     = Message.content row).
Proof.
  intros Ho He Hh. do 3 eexists.
  split; [apply (session_clean _ _ _ _ _ _ Ho He)|].
  split; [now apply persisted_insert|].
  cbn [queue Message.content assistant_row]. split.
  - unfold StreamRoute.delivered. cbn [queue].
    now rewrite concat_encode_filter_truthy, concat_encode.
  - intro Hd. rewrite reading_content, decoded_whole, concatenation_truthy.
    + reflexivity.
    + apply Forall_forall. intros f Hf. apply filter_In in Hf as [Hf _].
      exact (proj1 (Forall_forall _ _) Hd f Hf).
Qed.

Lemma streamed_text_equals_saved_text_witness :
  exists s w' row,
    StreamRoute.POST_basic (Demo.streaming scenario_A) Demo.request Demo.up =
      (Normal (mkResponse 200 StreamRoute.stream_headers (StreamBody s)), w') /\
    persisted Demo.up w' [row] /\
    StreamRoute.delivered s = Js.encode (Message.content row) /\
    Message.content
      (StreamingChatWindow.reading ascii_decode "chat-1" "1714564800000"
         (now (Demo.streaming scenario_A)) (queue s))
    = Message.content row.
Proof.
  destruct (streamed_text_equals_saved_text (fun _ _ => StreamRoute.catch_log)
              (Demo.streaming scenario_A) Demo.request "chat-1" scenario_A
              ascii_decode "1714564800000" Demo.up (Demo.opens scenario_A)
              eq_refl eq_refl) as (s & w' & row & H1 & H2 & H3 & H4).
  exists s, w', row. split; [exact H1|]. split; [exact H2|]. split; [exact H3|].
  apply H4. repeat constructor.
Defined.


(** * Sending a message ([src/components/ChatWindow.tsx]) *)

Module SendMessage.

(** The state of the chat window that [handleSendMessage] and the
    realtime subscription read and write, the cookies the browser
    attaches to a [fetch], and the browser's console. *)
Record Browser := mkBrowser {
  current_user : option User.t;         (* [user] of [useAuth()] *)
  chat : option Chat.t;
  messages : list Message.t;
  newMessage : string;
  isProcessing : bool;
  jar : list (string * string);
  browser_console : list (string * LogPayload)
}.

Definition setNewMessage (v : string) (b : Browser) : Browser :=
  mkBrowser (current_user b) (chat b) (messages b) v (isProcessing b) (jar b)
            (browser_console b).

Definition setIsProcessing (v : bool) (b : Browser) : Browser :=
  mkBrowser (current_user b) (chat b) (messages b) (newMessage b) v (jar b)
            (browser_console b).

Definition browser_error (label : string) (p : LogPayload) (b : Browser) : Browser :=
  mkBrowser (current_user b) (chat b) (messages b) (newMessage b) (isProcessing b) (jar b)
            (browser_console b ++ [(label, p)]).

(** [response.ok] *)
Definition ok (r : Response) : bool :=
  Nat.leb 200 (http_status r) && Nat.leb (http_status r) 299.

(** [fetch('/api/chat', { method: 'POST', body: JSON.stringify({ messages, chatId }) })]
    against the route of [src/app/api/chat/route.ts]. *)
Definition fetch_chat (env : Env) (b : Browser) (allMessages : list Message.t)
    (chatId : string) : Eff World Response :=
  ChatRoute.POST env (mkRequest (Some (allMessages, chatId)) (jar b)).

(** [handleSendMessage] for the chat [chatId], with [trim] standing for
    [String.prototype.trim] and [stamp] for the browser's
    [new Date().toISOString()]. *)
Definition handleSendMessage (trim : string -> string) (env : Env) (chatId stamp : string)
    (b : Browser) (w : World) : Browser * World :=
  if negb (Js.truthy (trim (newMessage b)))
     || match current_user b with None => true | Some _ => false end
     || negb (Js.truthy chatId)
     || isProcessing b
  then (b, w)
  else
    let b := setIsProcessing true b in
    let userMessage := ChatWindow.userMessage chatId (newMessage b) stamp in
    let '(userMessageError, st) := Store.insert userMessage (store w) in
    let w := mkWorld st (console w) in
    match userMessageError with
    | Some e =>
        (setIsProcessing false (browser_error "Error sending message:" (LogPg e) b), w)
    | None =>
        let b := setNewMessage "" b in
        let allMessages := ChatWindow.allMessages (chat b) (messages b) userMessage in
        match fetch_chat env b allMessages chatId w with
        | (Normal response, w') =>
            if ok response then (setIsProcessing false b, w')
            else
              (setIsProcessing false
                 (browser_error "Error sending message:"
                    (LogApi {| status := None; message := "Failed to get AI response" |}) b),
               w')
        | (Thrown e, w') =>
            (setIsProcessing false (browser_error "Error sending message:" (LogApi e) b), w')
        end
    end.

(** The callback of the subscription:
    [setMessages((prev) => [...prev, newMessage])]. *)
Definition on_insert (b : Browser) (row : Message.t) : Browser :=
  mkBrowser (current_user b) (chat b) (messages b ++ [row]) (newMessage b)
            (isProcessing b) (jar b) (browser_console b).

Definition in_chat (chatId : string) (row : Message.t) : bool :=
  match Message.chat_id row with
  | Some c => String.eqb c chatId
  | None => false
  end.

(** The INSERT events of the channel [messages:chat_id=eq.chatId] for
    the rows that appeared between [w] and [w'], delivered in order. *)
Definition realtime (chatId : string) (w w' : World) (b : Browser) : Browser :=
  fold_left on_insert
    (filter (in_chat chatId)
       (skipn (List.length (Store.rows (store w))) (Store.rows (store w'))))
    b.

End SendMessage.

(** The row of the user's message as the store returns it. *)
Definition user_row (st : Store.t) (chatId content stamp : string) : Message.t :=
  Message.mk (Some (Store.uuid st (List.length (Store.rows st))))
             (Some chatId) user content (Some stamp).

(** A trim for running the handler: spaces only. *)
Fixpoint trim_left (s : string) : string :=
  match s with
  | String " " rest => trim_left rest
  | _ => s
  end.

Definition demo_browser (text : string) : SendMessage.Browser :=
  SendMessage.mkBrowser (Some Demo.alice) (Some Demo.chat) [] text false
    [("sb-access-token", "jwt")] [].

(** Nothing is sent when the input is blank, when nobody is signed in,
    when there is no chat, or while a message is being processed: the
    handler returns at once, the window and the world are as they were. *)
Theorem blocked_send_changes_nothing trim env chatId stamp b w :
  Js.truthy (trim (SendMessage.newMessage b)) = false
  \/ SendMessage.current_user b = None
  \/ chatId = ""
  \/ SendMessage.isProcessing b = true ->
  SendMessage.handleSendMessage trim env chatId stamp b w = (b, w).
Proof.
  intro H. unfold SendMessage.handleSendMessage.
  destruct H as [H | [H | [H | H]]]; rewrite H; simpl;
    rewrite ?orb_true_r; reflexivity.
Qed.

Lemma blocked_send_changes_nothing_witness :
  SendMessage.handleSendMessage trim_left (Demo.streaming scenario_A) "chat-1"
    "2024-05-01T11:59:58.000Z" (demo_browser "   ") Demo.up
  = (demo_browser "   ", Demo.up).
Proof.
  apply blocked_send_changes_nothing. left. reflexivity.
Defined.

(** The non-streaming route past its guards, with a completion in hand:
    everything hangs on the insert. *)
Lemma chat_route_completed env request messages chatId completion c rest w :
  json request = Some (messages, chatId) ->
  authorized env request chatId = true ->
  completions_create env messages = inr completion ->
  completion_choices completion = c :: rest ->
  ChatRoute.POST env request w =
    match Store.insert (assistant_message chatId (Js.or c fallback_response) (now env))
                       (store w) with
    | (None, st) => (Normal (NextResponse_json JsonSuccess 200), mkWorld st (console w))
    | (Some e, st) =>
        (Normal (NextResponse_json (JsonError "Failed to save AI response") 500),
         mkWorld st (console w ++ [("Error inserting AI response:", LogPg e)]))
    end.
Proof.
  intros Hj Ha Hc Hch.
  unfold ChatRoute.POST, try_catch, request_json. rewrite Hj.
  unfold bind at 1, ret at 1. rewrite (guarded_authorized _ _ _ _ _ Ha).
  unfold bind at 1, generateChatCompletion, try_catch. rewrite Hc, Hch.
  unfold ret at 1. unfold bind, messages_insert.
  destruct (Store.insert _ (store w)) as [[e|] st]; reflexivity.
Qed.

(** The non-streaming route past its guards, with the provider
    rejecting the request. *)
Lemma chat_route_rejected env request messages chatId e w :
  json request = Some (messages, chatId) ->
  authorized env request chatId = true ->
  completions_create env messages = inl e ->
  ChatRoute.POST env request w =
    (Normal (NextResponse_json (JsonError "Internal server error") 500),
     mkWorld (store w)
       (console w ++ [("Error generating chat completion:", LogApi e);
                      ("Error in chat API route:", LogApi e)])).
Proof.
  intros Hj Ha He.
  unfold ChatRoute.POST, try_catch, request_json. rewrite Hj.
  unfold bind at 1, ret at 1. rewrite (guarded_authorized _ _ _ _ _ Ha).
  unfold bind at 1, generateChatCompletion, try_catch. rewrite He.
  unfold throw, bind, console_error, modify, ret; simpl.
  now rewrite <- app_assoc.
Qed.

Section Sending.
Import SendMessage.

Variables (trim : string -> string) (env : Env) (chatId stamp : string).
Variables (b : Browser) (w : World).

(** The window lets the message through. *)
Definition sendable : Prop :=
  Js.truthy (trim (newMessage b)) = true /\
  current_user b <> None /\
  chatId <> "" /\
  isProcessing b = false.

Let userMessage := ChatWindow.userMessage chatId (newMessage b) stamp.
Let conversation := ChatWindow.allMessages (chat b) (messages b) userMessage.
Let request := mkRequest (Some (conversation, chatId)) (jar b).
Let st1 := snd (Store.insert userMessage (store w)).

Lemma sendable_guard :
  sendable ->
  negb (Js.truthy (trim (newMessage b)))
  || match current_user b with None => true | Some _ => false end
  || negb (Js.truthy chatId)
  || isProcessing b = false.
Proof.
  intros (Ht & Hu & Hc & Hp). rewrite Ht, Hp.
  destruct (current_user b); [|now elim Hu].
  apply truthy_true_nonempty in Hc. now rewrite Hc.
Qed.

(** A message that goes through: the table gains the user's row and
    then the assistant's row, in this order; the provider was shown the
    optional system turn, the messages on screen and the new message
    (its completion is the one for that conversation); the input is
    cleared, the window is idle again and nothing is logged.  Once the
    two INSERT events have arrived, the window shows the old messages
    followed by the two rows. *)
Theorem send_adds_question_then_answer completion c rest :
  sendable ->
  Store.healthy (store w) = true ->
  authorized env request chatId = true ->
  completions_create env conversation = inr completion ->
  completion_choices completion = c :: rest ->
  let question := user_row (store w) chatId (newMessage b) stamp in
  let answer := assistant_row st1 chatId (Js.or c fallback_response) (now env) in
  let after := handleSendMessage trim env chatId stamp b w in
  persisted w (snd after) [question; answer] /\
  console (snd after) = console w /\
  fst after = setIsProcessing false (setNewMessage "" b) /\
  messages (realtime chatId w (snd after) (fst after))
    = (messages b ++ [question; answer])%list.
Proof.
  intros Hs Hh Ha Hc Hch question answer after.
  assert (Hafter : after =
            (setIsProcessing false (setNewMessage "" b),
             mkWorld (snd (Store.insert
                             (assistant_message chatId (Js.or c fallback_response) (now env))
                             st1))
                     (console w))).
  { subst after. unfold handleSendMessage. rewrite (sendable_guard Hs).
    simpl. change (ChatWindow.userMessage chatId (newMessage b) stamp) with userMessage.
    destruct (insert_healthy userMessage (store w) Hh) as [_ Hnone].
    destruct (Store.insert userMessage (store w)) as [err st] eqn:Hins.
    simpl in Hnone. subst err.
    unfold fetch_chat. simpl.
    change (mkRequest (Some (ChatWindow.allMessages (chat b) (messages b) userMessage, chatId))
                      (jar b)) with request.
    rewrite (chat_route_completed env request conversation chatId completion c rest
               (mkWorld st (console w)) eq_refl Ha Hc Hch). simpl.
    assert (Hh1 : Store.healthy st = true).
    { unfold Store.insert, Store.healthy in *.
      destruct (Store.outage (store w)); [discriminate|].
      injection Hins as <-. reflexivity. }
    destruct (insert_healthy
                (assistant_message chatId (Js.or c fallback_response) (now env)) st Hh1)
      as [_ Hnone2].
    change st1 with st.
    destruct (Store.insert _ st) as [err2 st2]. simpl in Hnone2. subst err2.
    reflexivity. }
  assert (Hh1 : Store.healthy st1 = true).
  { subst st1. unfold Store.insert, Store.healthy in *.
    destruct (Store.outage (store w)); [discriminate | reflexivity]. }
  assert (Hrows1 : Store.rows st1 = (Store.rows (store w) ++ [question])%list).
  { subst st1. now destruct (insert_healthy userMessage (store w) Hh) as [-> _]. }
  assert (Hrows : persisted w (snd after) [question; answer]).
  { rewrite Hafter. unfold persisted; simpl.
    destruct (insert_healthy
                (assistant_message chatId (Js.or c fallback_response) (now env)) st1 Hh1)
      as [-> _].
    unfold answer, assistant_row. rewrite Hrows1, <- app_assoc. reflexivity. }
  split; [exact Hrows|]. split; [now rewrite Hafter|]. split; [now rewrite Hafter|].
  unfold realtime. unfold persisted in Hrows. rewrite Hrows.
  rewrite skipn_app, Nat.sub_diag, skipn_all. simpl.
  unfold in_chat; simpl. rewrite String.eqb_refl. simpl.
  rewrite Hafter. simpl. now rewrite <- app_assoc.
Qed.

(** When the store refuses the user's message, the route is never
    called: the world is as it was, the text stays in the input, the
    store's error is logged in the browser and the window is idle. *)
Theorem send_stops_at_failed_insert e :
  sendable ->
  Store.outage (store w) = Some e ->
  handleSendMessage trim env chatId stamp b w =
    (setIsProcessing false (browser_error "Error sending message:" (LogPg e) b), w).
Proof.
  intros Hs Ho. unfold handleSendMessage. rewrite (sendable_guard Hs).
  unfold Store.insert. rewrite Ho. simpl. now destruct w.
Qed.

(** When the provider rejects the request, the user's message stays in
    the table (nothing is rolled back) without an answer, the input has
    been cleared, and the browser logs 'Failed to get AI response'. *)
Theorem send_keeps_question_without_answer e :
  sendable ->
  Store.healthy (store w) = true ->
  authorized env request chatId = true ->
  completions_create env conversation = inl e ->
  let after := handleSendMessage trim env chatId stamp b w in
  persisted w (snd after) [user_row (store w) chatId (newMessage b) stamp] /\
  fst after =
    setIsProcessing false
      (browser_error "Error sending message:"
         (LogApi {| status := None; message := "Failed to get AI response" |})
         (setNewMessage "" b)).
Proof.
  intros Hs Hh Ha He after. subst after.
  unfold handleSendMessage. rewrite (sendable_guard Hs).
  simpl. change (ChatWindow.userMessage chatId (newMessage b) stamp) with userMessage.
  destruct (insert_healthy userMessage (store w) Hh) as [Hrows Hnone].
  destruct (Store.insert userMessage (store w)) as [err st] eqn:Hins.
  simpl in Hnone, Hrows. subst err.
  unfold fetch_chat. simpl.
  change (mkRequest (Some (ChatWindow.allMessages (chat b) (messages b) userMessage, chatId))
                    (jar b)) with request.
  rewrite (chat_route_rejected env request conversation chatId e
             (mkWorld st (console w)) eq_refl Ha He). simpl.
  split; [|reflexivity]. unfold persisted; simpl. exact Hrows.
Qed.

End Sending.

Lemma demo_sendable : sendable trim_left "chat-1" (demo_browser "Hi").
Proof.
  split; [reflexivity|]. split; [discriminate|]. split; [discriminate | reflexivity].
Defined.

Definition greeting : Env :=
  Demo.env (inr {| completion_choices := [Some "Hello!"] |}) Demo.no_stream.

Definition busy : Env := Demo.env (inl Demo.rate_limited) Demo.no_stream.

Lemma send_adds_question_then_answer_witness :
  map (fun m => (Message.role m, Message.content m))
      (SendMessage.messages
         (SendMessage.realtime "chat-1" Demo.up
            (snd (SendMessage.handleSendMessage trim_left greeting "chat-1"
                    "2024-05-01T11:59:58.000Z" (demo_browser "Hi") Demo.up))
            (fst (SendMessage.handleSendMessage trim_left greeting "chat-1"
                    "2024-05-01T11:59:58.000Z" (demo_browser "Hi") Demo.up))))
  = [(user, "Hi"); (assistant, "Hello!")].
Proof.
  destruct (send_adds_question_then_answer trim_left greeting "chat-1"
              "2024-05-01T11:59:58.000Z" (demo_browser "Hi") Demo.up
              {| completion_choices := [Some "Hello!"] |} (Some "Hello!") []
              demo_sendable eq_refl eq_refl eq_refl eq_refl) as (_ & _ & _ & H).
  rewrite H. reflexivity.
Defined.

Lemma send_stops_at_failed_insert_witness :
  SendMessage.handleSendMessage trim_left greeting "chat-1"
    "2024-05-01T11:59:58.000Z" (demo_browser "Hi") Demo.down
  = (SendMessage.setIsProcessing false
       (SendMessage.browser_error "Error sending message:"
          (LogPg {| code := "57P01"; details := "terminating connection" |})
          (demo_browser "Hi")),
     Demo.down).
Proof.
  exact (send_stops_at_failed_insert trim_left greeting "chat-1"
           "2024-05-01T11:59:58.000Z" (demo_browser "Hi") Demo.down
           {| code := "57P01"; details := "terminating connection" |}
           demo_sendable eq_refl).
Defined.

Lemma send_keeps_question_without_answer_witness :
  persisted Demo.up
    (snd (SendMessage.handleSendMessage trim_left busy "chat-1"
            "2024-05-01T11:59:58.000Z" (demo_browser "Hi") Demo.up))
    [user_row (store Demo.up) "chat-1" "Hi" "2024-05-01T11:59:58.000Z"].
Proof.
  exact (proj1 (send_keeps_question_without_answer trim_left busy "chat-1"
                  "2024-05-01T11:59:58.000Z" (demo_browser "Hi") Demo.up
                  Demo.rate_limited demo_sendable eq_refl eq_refl eq_refl)).
Defined.


(** * Relative times ([getRelativeTime]) *)

Module RelativeTime.

(** A JavaScript number that is an integer or [NaN] ([None]). *)
Definition number : Type := option Z.

(** [a - b] *)
Definition sub (a b : number) : number :=
  match a, b with
  | Some x, Some y => Some (x - y)%Z
  | _, _ => None
  end.

(** [Math.floor(a / k)] for a positive integer [k] *)
Definition floor_div (a : number) (k : Z) : number :=
  option_map (fun x => (x / k)%Z) a.

(** [a < k] and [a > k]: false when [a] is [NaN]. *)
Definition lt (a : number) (k : Z) : bool :=
  match a with Some x => (x <? k)%Z | None => false end.

Definition gt (a : number) (k : Z) : bool :=
  match a with Some x => (x >? k)%Z | None => false end.

(** [`${a}`] *)
Definition to_string (a : number) : string :=
  match a with
  | Some x => DecimalString.NilZero.string_of_int (Z.to_int x)
  | None => "NaN"
  end.

(** [`${n} ${unit}${n > 1 ? 's' : ''} ago`] *)
Definition ago (n : number) (unit : string) : string :=
  to_string n ++ " " ++ unit ++ (if gt n 1 then "s" else "") ++ " ago".

(** [getRelativeTime(timestamp)], given [new Date().getTime()] as [now]
    and [new Date(timestamp).getTime()] as [date] ([NaN] for a
    timestamp that does not parse). *)
Definition getRelativeTime (now : Z) (date : number) : string :=
  let diffInSeconds := floor_div (sub (Some now) date) 1000 in
  if lt diffInSeconds 60 then "just now"
  else
    let diffInMinutes := floor_div diffInSeconds 60 in
    if lt diffInMinutes 60 then ago diffInMinutes "minute"
    else
      let diffInHours := floor_div diffInMinutes 60 in
      if lt diffInHours 24 then ago diffInHours "hour"
      else
        let diffInDays := floor_div diffInHours 24 in
        if lt diffInDays 30 then ago diffInDays "day"
        else
          let diffInMonths := floor_div diffInDays 30 in
          if lt diffInMonths 12 then ago diffInMonths "month"
          else
            let diffInYears := floor_div diffInMonths 12 in
            ago diffInYears "year".

End RelativeTime.

Section RelativeTimeFacts.
Import RelativeTime.
Open Scope Z_scope.

Lemma ltb_div (d k n : Z) : 0 < k -> (d / k <? n) = (d <? k * n).
Proof.
  intro Hk.
  destruct (Z.ltb_spec (d / k) n) as [H|H], (Z.ltb_spec d (k * n)) as [H'|H'];
    try reflexivity; exfalso.
  - pose proof (Z.div_le_lower_bound d k n Hk H'). lia.
  - pose proof (Z.div_lt_upper_bound d k n Hk H'). lia.
Qed.

Lemma relative_time_flat (now date : Z) :
  let d := (now - date) / 1000 in
  getRelativeTime now (Some date) =
    if d <? 60 then "just now"%string
    else if d <? 3600 then ago (Some (d / 60)) "minute"
    else if d <? 86400 then ago (Some (d / 3600)) "hour"
    else if d <? 2592000 then ago (Some (d / 86400)) "day"
    else if d <? 31104000 then ago (Some (d / 2592000)) "month"
    else ago (Some (d / 31104000)) "year".
Proof.
  intro d. unfold getRelativeTime. simpl. fold d.
  destruct (d <? 60); [reflexivity|].
  rewrite (ltb_div d 60 60) by lia. simpl (60 * 60).
  destruct (d <? 3600); [reflexivity|].
  rewrite (Z.div_div d 60 60) by lia. simpl (60 * 60).
  rewrite (ltb_div d 3600 24) by lia. simpl (3600 * 24).
  destruct (d <? 86400); [reflexivity|].
  rewrite (Z.div_div d 3600 24) by lia. simpl (3600 * 24).
  rewrite (ltb_div d 86400 30) by lia. simpl (86400 * 30).
  destruct (d <? 2592000); [reflexivity|].
  rewrite (Z.div_div d 86400 30) by lia. simpl (86400 * 30).
  rewrite (ltb_div d 2592000 12) by lia. simpl (2592000 * 12).
  destruct (d <? 31104000); [reflexivity|].
  rewrite (Z.div_div d 2592000 12) by lia. reflexivity.
Qed.

(** The label as a function of the whole seconds elapsed: the nested
    roundings of the code collapse to one division per unit, with a
    month of 30 days and a year of 360. *)
Theorem relative_time_by_elapsed_seconds (now date : Z) :
  let d := (now - date) / 1000 in
  getRelativeTime now (Some date) =
    if d <? 60 then "just now"%string
    else if d <? 3600 then ago (Some (d / 60)) "minute"
    else if d <? 86400 then ago (Some (d / 3600)) "hour"
    else if d <? 2592000 then ago (Some (d / 86400)) "day"
    else if d <? 31104000 then ago (Some (d / 2592000)) "month"
    else ago (Some (d / 31104000)) "year".
Proof. exact (relative_time_flat now date). Qed.

(** A timestamp less than a minute old, or in the future, reads
    "just now". *)
Theorem relative_time_just_now (now date : Z) :
  now - date < 60000 ->
  getRelativeTime now (Some date) = "just now"%string.
Proof.
  intro H. rewrite relative_time_flat. cbv zeta.
  assert (Hd : (now - date) / 1000 < 60)
    by (apply Z.div_lt_upper_bound; lia).
  apply Z.ltb_lt in Hd. now rewrite Hd.
Qed.

Lemma relative_time_just_now_witness :
  getRelativeTime 1714564800000 (Some 1714564860000) = "just now"%string.
Proof. apply relative_time_just_now. reflexivity. Defined.

(** From one minute on, the label is a count of at least one followed
    by a unit, the unit in the plural exactly when the count is not one:
    the label never reads "0 minutes ago" or "1 hours ago".  Counts stay
    below 60 minutes, 24 hours, 30 days and 12 months. *)
Theorem relative_time_counts_from_one (now date : Z) :
  60000 <= now - date ->
  exists (n : Z) (unit : string),
    1 <= n /\
    getRelativeTime now (Some date) =
      (DecimalString.NilZero.string_of_int (Z.to_int n) ++ " " ++ unit
       ++ (if (n =? 1)%Z then "" else "s") ++ " ago")%string /\
    ((unit = "minute"%string /\ n < 60) \/ (unit = "hour"%string /\ n < 24) \/
     (unit = "day"%string /\ n < 30) \/ (unit = "month"%string /\ n < 12) \/
     unit = "year"%string).
Proof.
  intro H. rewrite relative_time_flat. cbv zeta.
  set (d := (now - date) / 1000).
  assert (Hd : 60 <= d) by (apply Z.div_le_lower_bound; lia).
  assert (Hago : forall n unit, 1 <= n ->
            ago (Some n) unit =
            (DecimalString.NilZero.string_of_int (Z.to_int n) ++ " " ++ unit
             ++ (if (n =? 1)%Z then "" else "s") ++ " ago")%string).
  { intros n unit Hn. unfold ago, gt, to_string.
    destruct (Z.eqb_spec n 1) as [->|Hne]; [reflexivity|].
    assert (Hg : (n >? 1) = true) by (apply Z.gtb_lt; lia).
    now rewrite Hg. }
  destruct (Z.ltb_spec d 60) as [?|_]; [lia|].
  destruct (Z.ltb_spec d 3600) as [H1|H1].
  { exists (d / 60), "minute"%string.
    assert (1 <= d / 60) by (apply Z.div_le_lower_bound; lia).
    assert (d / 60 < 60) by (apply Z.div_lt_upper_bound; lia).
    split; [assumption|]. split; [now apply Hago | auto]. }
  destruct (Z.ltb_spec d 86400) as [H2|H2].
  { exists (d / 3600), "hour"%string.
    assert (1 <= d / 3600) by (apply Z.div_le_lower_bound; lia).
    assert (d / 3600 < 24) by (apply Z.div_lt_upper_bound; lia).
    split; [assumption|]. split; [now apply Hago | auto]. }
  destruct (Z.ltb_spec d 2592000) as [H3|H3].
  { exists (d / 86400), "day"%string.
    assert (1 <= d / 86400) by (apply Z.div_le_lower_bound; lia).
    assert (d / 86400 < 30) by (apply Z.div_lt_upper_bound; lia).
    split; [assumption|]. split; [now apply Hago | auto 6]. }
  destruct (Z.ltb_spec d 31104000) as [H4|H4].
  { exists (d / 2592000), "month"%string.
    assert (1 <= d / 2592000) by (apply Z.div_le_lower_bound; lia).
    assert (d / 2592000 < 12) by (apply Z.div_lt_upper_bound; lia).
    split; [assumption|]. split; [now apply Hago | auto 8]. }
  exists (d / 31104000), "year"%string.
  assert (1 <= d / 31104000) by (apply Z.div_le_lower_bound; lia).
  split; [assumption|]. split; [now apply Hago | auto 8].
Qed.

Lemma relative_time_counts_from_one_witness :
  exists (n : Z) (unit : string),
    1 <= n /\
    getRelativeTime 1714564800000 (Some 1714557600000) =
      (DecimalString.NilZero.string_of_int (Z.to_int n) ++ " " ++ unit
       ++ (if (n =? 1)%Z then "" else "s") ++ " ago")%string /\
    ((unit = "minute"%string /\ n < 60) \/ (unit = "hour"%string /\ n < 24) \/
     (unit = "day"%string /\ n < 30) \/ (unit = "month"%string /\ n < 12) \/
     unit = "year"%string).
Proof. apply relative_time_counts_from_one. discriminate. Defined.

(** Two hours ago, run. *)
Example relative_time_run :
  getRelativeTime 1714564800000 (Some 1714557600000) = "2 hours ago"%string /\
  getRelativeTime 1714564800000 (Some 1714564739000) = "1 minute ago"%string.
Proof. split; reflexivity. Qed.

(** A timestamp that does not parse is not caught: every comparison
    with [NaN] is false, so the label falls through to the last branch
    and reads "NaN year ago", whatever the current time. *)
Theorem relative_time_of_invalid_date (now : Z) :
  getRelativeTime now None = "NaN year ago"%string.
Proof. reflexivity. Qed.

End RelativeTimeFacts.


(** * The per-user rate limiter ([checkRateLimit]) *)

Module RateLimit.

Record UserLimit := mkLimit { count : nat; resetTime : Z }.

(** [userRateLimits], a [Map] from user ids to limits. *)
Definition Map : Type := string -> option UserLimit.

Definition empty : Map := fun _ => None.

(** [userRateLimits.set(userId, userLimit)] *)
Definition set (m : Map) (userId : string) (l : UserLimit) : Map :=
  fun k => if String.eqb k userId then Some l else m k.

(** [checkRateLimit(userId)] at [Date.now() = now]: the verdict and the
    map afterwards. *)
Definition checkRateLimit (now : Z) (userId : string) (m : Map) : bool * Map :=
  let userLimit :=
    match m userId with
    | Some l => l
    | None => mkLimit 0 (now + 60000)
    end in
  if (now >? resetTime userLimit)%Z then
    (true, set m userId (mkLimit 1 (now + 60000)))
  else if Nat.leb 10 (count userLimit) then
    (false, m)
  else
    (true, set m userId (mkLimit (count userLimit + 1) (resetTime userLimit))).

(** Successive calls for one user at the given times. *)
Fixpoint calls (userId : string) (times : list Z) (m : Map) : list bool * Map :=
  match times with
  | [] => ([], m)
  | now :: later =>
      let '(verdict, m') := checkRateLimit now userId m in
      let '(verdicts, m'') := calls userId later m' in
      (verdict :: verdicts, m'')
  end.

(** Successive calls by any users: [(now, userId)] pairs. *)
Fixpoint trace (events : list (Z * string)) (m : Map) : Map :=
  match events with
  | [] => m
  | (now, userId) :: later => trace later (snd (checkRateLimit now userId m))
  end.

End RateLimit.

Section RateLimitFacts.
Import RateLimit.

Lemma gtb_false (a b : Z) : (a <= b)%Z -> (a >? b)%Z = false.
Proof. intro H. rewrite Z.gtb_ltb. apply Z.ltb_ge. exact H. Qed.

Lemma set_same (m : Map) (u : string) (l : UserLimit) : set m u l u = Some l.
Proof. unfold set. now rewrite String.eqb_refl. Qed.

Lemma set_other (m : Map) (u v : string) (l : UserLimit) :
  v <> u -> set m u l v = m v.
Proof. intro H. unfold set. apply String.eqb_neq in H. now rewrite H. Qed.

(** Inside a window the counter decides. *)
Lemma calls_in_window (u : string) (times : list Z) :
  forall (m : Map) (c : nat) (r : Z),
    m u = Some (mkLimit c r) ->
    Forall (fun t => (t <= r)%Z) times ->
    fst (calls u times m)
    = map (fun i => Nat.ltb (c + i) 10) (seq 0 (List.length times)).
Proof.
  induction times as [|t later IH]; intros m c r Hm Ht; [reflexivity|].
  inversion Ht as [|? ? Htr Hlater]; subst.
  cbn [calls List.length seq map]. unfold checkRateLimit. rewrite Hm.
  cbn [count resetTime].
  assert (Hgt : (t >? r)%Z = false) by (apply gtb_false; lia).
  rewrite Hgt.
  destruct (Nat.leb_spec 10 c) as [Hc|Hc].
  - specialize (IH m c r Hm Hlater).
    destruct (calls u later m) as [vs m'']. cbn [fst] in *.
    assert (Hhead : Nat.ltb (c + 0) 10 = false) by (apply Nat.ltb_ge; lia).
    rewrite Hhead. f_equal. rewrite IH. rewrite <- seq_shift, map_map.
    apply map_ext_in. intros i _.
    assert (H1 : Nat.ltb (c + i) 10 = false) by (apply Nat.ltb_ge; lia).
    assert (H2 : Nat.ltb (c + S i) 10 = false) by (apply Nat.ltb_ge; lia).
    now rewrite H1, H2.
  - specialize (IH (set m u (mkLimit (c + 1) r)) (c + 1) r (set_same _ _ _) Hlater).
    destruct (calls u later _) as [vs m'']. cbn [fst] in *.
    assert (Hhead : Nat.ltb (c + 0) 10 = true) by (apply Nat.ltb_lt; lia).
    rewrite Hhead. f_equal. rewrite IH. rewrite <- seq_shift, map_map.
    apply map_ext. intro i. f_equal. lia.
Qed.

(** Ten calls per window.  For a user the map does not know yet, the
    first call opens a window of 60 seconds; of the calls made up to the
    end of that window (its last millisecond included, in any order),
    the first ten are allowed and every later one is refused. *)
Theorem first_ten_calls_pass (u : string) (t0 : Z) (times : list Z) (m : Map) :
  m u = None ->
  Forall (fun t => (t <= t0 + 60000)%Z) times ->
  fst (calls u (t0 :: times) m)
  = map (fun i => Nat.ltb i 10) (seq 0 (S (List.length times))).
Proof.
  intros Hm Ht. cbn [calls List.length seq map]. unfold checkRateLimit. rewrite Hm.
  cbn [count resetTime].
  assert (Hgt : (t0 >? t0 + 60000)%Z = false) by (apply gtb_false; lia).
  rewrite Hgt. cbn [Nat.leb].
  pose proof (calls_in_window u times (set m u (mkLimit (0 + 1) (t0 + 60000))) 1
                (t0 + 60000) (set_same _ _ _) Ht) as IH.
  destruct (calls u times _) as [vs m'']. cbn [fst] in *.
  f_equal. rewrite IH. rewrite <- seq_shift, map_map. reflexivity.
Qed.

Lemma first_ten_calls_pass_witness :
  fst (calls "u-1" (1000 :: [1001; 1002; 2000; 3000; 4000; 5000; 6000; 7000; 8000;
                              9000; 61000])%Z empty)
  = [true; true; true; true; true; true; true; true; true; true; false; false].
Proof.
  apply (first_ten_calls_pass "u-1" 1000
           [1001; 1002; 2000; 3000; 4000; 5000; 6000; 7000; 8000; 9000; 61000]%Z
           empty eq_refl).
  repeat constructor; discriminate.
Defined.

(** A refusal is exact and has no effect: a call is refused precisely
    when the user has an entry whose window is still open and whose
    count has reached ten, and then the map is the very same map.  In
    every case the entries of other users are left alone. *)
Theorem refusal_is_exact_and_silent (now : Z) (u : string) (m : Map) :
  (fst (checkRateLimit now u m) = false <->
   exists l, m u = Some l /\ (now <= resetTime l)%Z /\ 10 <= count l) /\
  (fst (checkRateLimit now u m) = false -> snd (checkRateLimit now u m) = m) /\
  (forall v, v <> u -> snd (checkRateLimit now u m) v = m v).
Proof.
  unfold checkRateLimit.
  destruct (m u) as [[c r]|] eqn:Hm; cbn [count resetTime].
  - destruct (Z.gtb_spec now r) as [Hgt|Hle]; cbn [fst snd].
    + split; [split; [discriminate|]|split; [discriminate|]].
      * intros (l & Hl & Hr & _). injection Hl as <-. simpl in Hr. lia.
      * intros v Hv. now apply set_other.
    + destruct (Nat.leb_spec 10 c) as [Hc|Hc]; cbn [fst snd].
      * split; [split; [|reflexivity]|split; [reflexivity|reflexivity]].
        intros _. exists (mkLimit c r). auto.
      * split; [split; [discriminate|]|split; [discriminate|]].
        -- intros (l & Hl & _ & Hten). injection Hl as <-. simpl in Hten. lia.
        -- intros v Hv. now apply set_other.
  - assert (Hgt : (now >? now + 60000)%Z = false) by (apply gtb_false; lia).
    rewrite Hgt. cbn [Nat.leb fst snd].
    split; [split; [discriminate|]|split; [discriminate|]].
    + intros (l & Hl & _). discriminate.
    + intros v Hv. now apply set_other.
Qed.

(** Once the window has passed, the next call is allowed and starts a
    new window of 60 seconds with the count at one, however many calls
    were refused before. *)
Theorem expired_window_restarts (now : Z) (u : string) (m : Map) (l : UserLimit) :
  m u = Some l ->
  (resetTime l < now)%Z ->
  fst (checkRateLimit now u m) = true /\
  snd (checkRateLimit now u m) u = Some (mkLimit 1 (now + 60000)).
Proof.
  intros Hm Hlt. unfold checkRateLimit. rewrite Hm.
  assert (Hgt : (now >? resetTime l)%Z = true) by (rewrite Z.gtb_ltb; apply Z.ltb_lt; lia).
  rewrite Hgt. simpl. split; [reflexivity | apply set_same].
Qed.

Lemma expired_window_restarts_witness :
  fst (checkRateLimit 70000 "u-1" (set empty "u-1" (mkLimit 10 61000))) = true /\
  snd (checkRateLimit 70000 "u-1" (set empty "u-1" (mkLimit 10 61000))) "u-1"
    = Some (mkLimit 1 (70000 + 60000)).
Proof.
  apply (expired_window_restarts 70000 "u-1" _ (mkLimit 10 61000) eq_refl).
  reflexivity.
Defined.

(** Whatever calls are made, by whatever users at whatever times,
    starting from the empty map, every stored count stays between one
    and ten. *)
Theorem stored_counts_between_one_and_ten (events : list (Z * string)) (u : string)
    (l : UserLimit) :
  trace events empty u = Some l ->
  1 <= count l <= 10.
Proof.
  assert (Hinv : forall events m,
             (forall v l', m v = Some l' -> 1 <= count l' <= 10) ->
             forall v l', trace events m v = Some l' -> 1 <= count l' <= 10).
  { clear. induction events as [|[now who] later IH]; intros m Hm v l' H; simpl in H.
    - now apply (Hm v).
    - eapply IH; [|exact H]. intros v0 l0. unfold checkRateLimit.
      destruct (m who) as [[c r]|] eqn:Hwho; cbn [count resetTime].
      + destruct (now >? r)%Z; cbn [snd].
        * unfold set. destruct (String.eqb v0 who).
          -- intro E; injection E as <-. simpl. lia.
          -- apply Hm.
        * destruct (Nat.leb_spec 10 c) as [Hc|Hc]; cbn [snd]; [apply Hm|].
          unfold set. destruct (String.eqb v0 who).
          -- intro E; injection E as <-. simpl. lia.
          -- apply Hm.
      + assert (Hgt : (now >? now + 60000)%Z = false)
          by (apply gtb_false; lia).
        rewrite Hgt. cbn [Nat.leb snd]. unfold set. destruct (String.eqb v0 who).
        * intro E; injection E as <-. simpl. lia.
        * apply Hm. }
  apply Hinv. intros v l' H. discriminate.
Qed.

Lemma stored_counts_between_one_and_ten_witness :
  1 <= count (mkLimit 2 61000) <= 10.
Proof.
  apply (stored_counts_between_one_and_ten
           [(1000%Z, "u-1"); (2000%Z, "u-2"); (3000%Z, "u-1")] "u-1").
  reflexivity.
Defined.

End RateLimitFacts.


(** * Retrying with backoff ([generateWithRetry]) *)

Module Retry.

(** What a run of [generateWithRetry] leaves behind: how many times the
    provider was called and the delays slept, in milliseconds. *)
Record Run := mkRun { calls : nat; sleeps : list Z }.

(** The provider as the loop meets it: the outcome of the [n]-th call of
    [generateChatCompletion(messages)], counted from 0. *)
Definition Provider : Type := nat -> ApiError + option string.

(** [await generateChatCompletion(messages)] *)
Definition call (p : Provider) : Eff Run (option string) :=
  fun r =>
    match p (calls r) with
    | inr v => (Normal v, mkRun (S (calls r)) (sleeps r))
    | inl e => (Thrown e, mkRun (S (calls r)) (sleeps r))
    end.

(** [await new Promise(resolve => setTimeout(resolve, delay))] *)
Definition sleep (delay : Z) : Eff Run unit :=
  modify (fun r => mkRun (calls r) (sleeps r ++ [delay])).

(** [error.status === code] *)
Definition status_is (error : ApiError) (code : nat) : bool :=
  match status error with
  | Some s => Nat.eqb s code
  | None => false
  end.

(** [`Failed after ${maxRetries} retries`] *)
Definition failed_after (maxRetries : nat) : ApiError :=
  {| status := None;
     message := "Failed after "
                ++ DecimalString.NilZero.string_of_uint (Nat.to_uint maxRetries)
                ++ " retries" |}.

(** The [while (retries < maxRetries)] loop with [left = maxRetries -
    retries] turns to go; [retryable] is the test of the catch block. *)
Fixpoint loop (retryable : ApiError -> bool) (p : Provider) (maxRetries left retries : nat)
  : Eff Run (option string) :=
  match left with
  | 0 => throw (failed_after maxRetries)
  | S left' =>
      try_catch (call p)
        (fun error =>
           let retries := S retries in
           if retryable error then
             sleep (2 ^ Z.of_nat retries * 1000) ;;
             loop retryable p maxRetries left' retries
           else throw error)
  end.

(** [generateWithRetry] of the OpenAI integration guide: retries on
    429 and on 500. *)
Definition generateWithRetry (p : Provider) (maxRetries : nat) : Eff Run (option string) :=
  loop (fun error => status_is error 429 || status_is error 500) p maxRetries maxRetries 0.

(** [generateWithRetry] of the FAQ: retries on 429 only. *)
Definition generateWithRetry_faq (p : Provider) (maxRetries : nat)
  : Eff Run (option string) :=
  loop (fun error => status_is error 429) p maxRetries maxRetries 0.

(** The delays of the first [k] retries after [j] earlier ones. *)
Definition backoff (j k : nat) : list Z :=
  map (fun i => (2 ^ Z.of_nat i * 1000)%Z) (seq (S j) k).

End Retry.

Section RetryFacts.
Import Retry.

Variables (retryable : ApiError -> bool) (p : Provider) (maxRetries : nat).

(** The calls [from], ..., [from + k - 1] all fail with an error the
    catch block retries. *)
Definition fails_retryably (from k : nat) : Prop :=
  forall i, i < k -> exists e, p (from + i) = inl e /\ retryable e = true.

Lemma loop_through_failures (k : nat) :
  forall left j r,
    fails_retryably (calls r) k ->
    loop retryable p maxRetries (k + left) j r =
    loop retryable p maxRetries left (j + k)
      (mkRun (calls r + k) (sleeps r ++ backoff j k)).
Proof.
  induction k as [|k IH]; intros left j r Hf.
  - simpl. unfold backoff. simpl. rewrite Nat.add_0_r, Nat.add_0_r, app_nil_r.
    now destruct r.
  - destruct (Hf 0 (Nat.lt_0_succ k)) as (e & He & Hr).
    rewrite Nat.add_0_r in He.
    cbn [Nat.add loop]. unfold try_catch, call. rewrite He, Hr.
    unfold bind, sleep, modify.
    rewrite IH.
    + cbn [calls sleeps]. f_equal; [lia|].
      f_equal; [lia|]. rewrite <- app_assoc. f_equal.
    + intros i Hi. cbn [calls]. destruct (Hf (S i)) as (e' & He' & Hr'); [lia|].
      exists e'. split; [|exact Hr']. rewrite <- He'. f_equal. lia.
Qed.

End RetryFacts.

(** The test of the catch block of the guide's [generateWithRetry]. *)
Definition transient (error : ApiError) : bool :=
  Retry.status_is error 429 || Retry.status_is error 500.

(** The first success is returned: when the first [k] calls fail with
    429 or 500 and call [k] succeeds, with [k] below [maxRetries], the
    result is that completion, the provider has been called [k + 1]
    times, and the delays slept are 2000, 4000, ..., 2^k * 1000 ms. *)
Theorem retry_returns_first_success (p : Retry.Provider) (maxRetries k : nat)
    (v : option string) :
  k < maxRetries ->
  fails_retryably transient p 0 k ->
  p k = inr v ->
  Retry.generateWithRetry p maxRetries (Retry.mkRun 0 [])
  = (Normal v, Retry.mkRun (S k) (Retry.backoff 0 k)).
Proof.
  intros Hk Hf Hv. unfold Retry.generateWithRetry. fold transient.
  replace maxRetries with (k + S (maxRetries - S k)) at 2 by lia.
  rewrite (loop_through_failures transient p maxRetries k _ 0 (Retry.mkRun 0 []) Hf).
  cbn [Retry.loop Retry.calls Retry.sleeps Nat.add app].
  unfold try_catch, Retry.call. cbn [Retry.calls Retry.sleeps]. now rewrite Hv.
Qed.

Definition flaky (n : nat) : ApiError + option string :=
  match n with
  | 0 => inl Demo.rate_limited
  | 1 => inl {| status := Some 500; message := "The server had an error" |}
  | _ => inr (Some "Hello!")
  end.

Lemma flaky_fails_twice : fails_retryably transient flaky 0 2.
Proof.
  intros i Hi. destruct i as [|[|i]].
  - eexists. split; reflexivity.
  - eexists. split; reflexivity.
  - exfalso. lia.
Defined.

Lemma retry_returns_first_success_witness :
  Retry.generateWithRetry flaky 3 (Retry.mkRun 0 [])
  = (Normal (Some "Hello!"), Retry.mkRun 3 [2000; 4000]%Z).
Proof.
  exact (retry_returns_first_success flaky 3 2 (Some "Hello!")
           (le_n 3) flaky_fails_twice eq_refl).
Defined.

(** Giving up: when the first [maxRetries] calls all fail with 429 or
    500, the function throws 'Failed after <maxRetries> retries' after
    exactly [maxRetries] calls; it has slept after every failure, the
    last one included.  With [maxRetries = 0] the provider is never
    called. *)
Theorem retry_gives_up_after_max (p : Retry.Provider) (maxRetries : nat) :
  fails_retryably transient p 0 maxRetries ->
  Retry.generateWithRetry p maxRetries (Retry.mkRun 0 [])
  = (Thrown (Retry.failed_after maxRetries),
     Retry.mkRun maxRetries (Retry.backoff 0 maxRetries)).
Proof.
  intro Hf. unfold Retry.generateWithRetry. fold transient.
  replace maxRetries with (maxRetries + 0) at 2 by lia.
  rewrite (loop_through_failures transient p maxRetries maxRetries 0 0
             (Retry.mkRun 0 []) Hf).
  reflexivity.
Qed.

Definition always_limited (n : nat) : ApiError + option string := inl Demo.rate_limited.

Lemma retry_gives_up_after_max_witness :
  Retry.generateWithRetry always_limited 3 (Retry.mkRun 0 [])
  = (Thrown {| status := None; message := "Failed after 3 retries" |},
     Retry.mkRun 3 [2000; 4000; 8000]%Z).
Proof.
  apply (retry_gives_up_after_max always_limited 3).
  intros i _. eexists. split; reflexivity.
Defined.

(** Other errors are not retried: when the first [k] calls fail with
    429 or 500 and call [k] fails with any other error, that error is
    rethrown as it is, after [k + 1] calls and with no delay after it. *)
Theorem retry_rethrows_other_errors (p : Retry.Provider) (maxRetries k : nat)
    (e : ApiError) :
  k < maxRetries ->
  fails_retryably transient p 0 k ->
  p k = inl e ->
  transient e = false ->
  Retry.generateWithRetry p maxRetries (Retry.mkRun 0 [])
  = (Thrown e, Retry.mkRun (S k) (Retry.backoff 0 k)).
Proof.
  intros Hk Hf He Hn. unfold Retry.generateWithRetry. fold transient.
  replace maxRetries with (k + S (maxRetries - S k)) at 2 by lia.
  rewrite (loop_through_failures transient p maxRetries k _ 0 (Retry.mkRun 0 []) Hf).
  cbn [Retry.loop Retry.calls Retry.sleeps Nat.add app].
  unfold try_catch, Retry.call. cbn [Retry.calls Retry.sleeps]. rewrite He, Hn.
  reflexivity.
Qed.

Definition rejects_second (n : nat) : ApiError + option string :=
  match n with
  | 0 => inl Demo.rate_limited
  | _ => inl Demo.context_too_long
  end.

Lemma retry_rethrows_other_errors_witness :
  Retry.generateWithRetry rejects_second 3 (Retry.mkRun 0 [])
  = (Thrown Demo.context_too_long, Retry.mkRun 2 [2000]%Z).
Proof.
  apply (retry_rethrows_other_errors rejects_second 3 1 Demo.context_too_long).
  - repeat constructor.
  - intros i Hi. destruct i as [|i]; [|exfalso; lia].
    eexists. split; reflexivity.
  - reflexivity.
  - reflexivity.
Defined.

(** The provider is never called more than [maxRetries] times, and one
    delay is slept for each failed call but a rethrown one at most:
    whatever the provider does, for the guide's variant and the FAQ's. *)
Theorem retry_never_exceeds_max (p : Retry.Provider) (maxRetries : nat) :
  let guide := snd (Retry.generateWithRetry p maxRetries (Retry.mkRun 0 [])) in
  let faq := snd (Retry.generateWithRetry_faq p maxRetries (Retry.mkRun 0 [])) in
  Retry.calls guide <= maxRetries /\
  List.length (Retry.sleeps guide) <= Retry.calls guide /\
  Retry.calls faq <= maxRetries /\
  List.length (Retry.sleeps faq) <= Retry.calls faq.
Proof.
  assert (H : forall retryable left j r,
             List.length (Retry.sleeps r) <= Retry.calls r ->
             Retry.calls (snd (Retry.loop retryable p maxRetries left j r))
               <= Retry.calls r + left /\
             List.length (Retry.sleeps (snd (Retry.loop retryable p maxRetries left j r)))
               <= Retry.calls (snd (Retry.loop retryable p maxRetries left j r))).
  { intros retryable left. induction left as [|left IH]; intros j r Hr.
    - simpl. lia.
    - cbn [Retry.loop]. unfold try_catch, Retry.call.
      destruct (p (Retry.calls r)) as [e|v]; cbn [snd Retry.calls Retry.sleeps].
      + destruct (retryable e).
        * unfold bind, Retry.sleep, modify. cbv beta iota.
          match goal with |- context [Retry.loop _ _ _ left ?j' ?r'] =>
            destruct (IH j' r') as [H1 H2] end.
          { cbn [Retry.calls Retry.sleeps]. rewrite length_app. simpl. lia. }
          cbn [Retry.calls Retry.sleeps] in *. split; [lia | exact H2].
        * unfold throw. cbn [snd Retry.calls Retry.sleeps]. lia.
      + lia. }
  intros guide faq. subst guide faq.
  unfold Retry.generateWithRetry, Retry.generateWithRetry_faq.
  destruct (H (fun error => Retry.status_is error 429 || Retry.status_is error 500)
              maxRetries 0 (Retry.mkRun 0 [])) as [G1 G2]; [simpl; lia|].
  destruct (H (fun error => Retry.status_is error 429)
              maxRetries 0 (Retry.mkRun 0 [])) as [F1 F2]; [simpl; lia|].
  cbn [Retry.calls Nat.add] in G1, F1. auto.
Qed.


(** * Fitting a conversation into the context ([truncateConversation]) *)

Module Truncate.

Section WithEncoder.

(** [countTokens] of the guide wraps the tokenizer of [gpt-3-encoder]. *)
Variable countTokens : string -> nat.

Definition is_system (m : Message.t) : bool :=
  match Message.role m with
  | system => true
  | _ => false
  end.

(** [countTokens(message.content) + 4] *)
Definition messageTokens (m : Message.t) : nat := countTokens (Message.content m) + 4.

(** The [for] loop, from the newest message to the oldest: [newest_first]
    lists [messages[i]] for [i] going down. *)
Fixpoint scan (newest_first : list Message.t) (maxTokens totalTokens : nat)
    (truncatedMessages : list Message.t) : list Message.t :=
  match newest_first with
  | [] => truncatedMessages
  | m :: older =>
      if is_system m then scan older maxTokens totalTokens truncatedMessages
      else if Nat.ltb maxTokens (totalTokens + messageTokens m) then truncatedMessages
      else scan older maxTokens (totalTokens + messageTokens m) (m :: truncatedMessages)
  end.

(** [truncateConversation(messages, maxTokens)]; reading [messages[0].role]
    of an empty array throws. *)
Definition truncateConversation (messages : list Message.t) (maxTokens : nat)
  : Completion (list Message.t) :=
  match messages with
  | [] => Thrown (TypeError "Cannot read properties of undefined (reading 'role')")
  | first :: _ =>
      if is_system first
      then Normal (scan (rev messages) maxTokens (messageTokens first) [first])
      else Normal (scan (rev messages) maxTokens 0 [])
  end.

(** Tokens of a list of messages, metadata included. *)
Definition tokens (l : list Message.t) : nat := list_sum (map messageTokens l).

End WithEncoder.

(** The non-system messages of a conversation, in order. *)
Definition chat_turns (l : list Message.t) : list Message.t :=
  filter (fun m => negb (is_system m)) l.

End Truncate.

Section TruncateFacts.
Import Truncate.

Variable countTokens : string -> nat.

Lemma tokens_nil : tokens countTokens [] = 0.
Proof. reflexivity. Qed.

Lemma tokens_cons (m : Message.t) (l : list Message.t) :
  tokens countTokens (m :: l) = messageTokens countTokens m + tokens countTokens l.
Proof. reflexivity. Qed.

Lemma tokens_app (l1 l2 : list Message.t) :
  tokens countTokens (l1 ++ l2) = tokens countTokens l1 + tokens countTokens l2.
Proof. unfold tokens. now rewrite map_app, list_sum_app. Qed.

Lemma tokens_rev (l : list Message.t) :
  tokens countTokens (rev l) = tokens countTokens l.
Proof.
  induction l as [|m l IH]; [reflexivity|].
  cbn [rev]. rewrite tokens_app, IH, !tokens_cons, tokens_nil. lia.
Qed.

Lemma chat_turns_rev (l : list Message.t) :
  chat_turns (rev l) = rev (chat_turns l).
Proof.
  unfold chat_turns. induction l as [|m l IH]; [reflexivity|].
  simpl. rewrite filter_app, IH. simpl.
  destruct (negb (is_system m)); simpl; [reflexivity | now rewrite app_nil_r].
Qed.

(** What the loop does: of the non-system messages, newest first, it
    takes the longest run that fits and stops at the first that does
    not. *)
Lemma scan_spec (l : list Message.t) (maxTokens : nat) :
  forall total acc,
  exists taken dropped,
    chat_turns l = (taken ++ dropped)%list /\
    scan countTokens l maxTokens total acc = (rev taken ++ acc)%list /\
    (taken <> [] -> total + tokens countTokens taken <= maxTokens) /\
    (forall d rest, dropped = d :: rest ->
       maxTokens < total + tokens countTokens taken + messageTokens countTokens d).
Proof.
  unfold chat_turns. induction l as [|m older IH]; intros total acc.
  - exists [], []. split; [reflexivity|]. split; [reflexivity|].
    split; [congruence|]. intros d rest H; discriminate.
  - cbn [scan filter]. destruct (is_system m) eqn:Hs; cbn [negb].
    + apply IH.
    + destruct (Nat.ltb_spec maxTokens (total + messageTokens countTokens m)) as [Hlt|Hle].
      * exists [], (m :: filter (fun m0 => negb (is_system m0)) older).
        split; [reflexivity|]. split; [reflexivity|]. split; [congruence|].
        intros d rest H. injection H as <- _. rewrite tokens_nil. lia.
      * destruct (IH (total + messageTokens countTokens m) (m :: acc))
          as (taken & dropped & Hc & Hr & Hb & Hd).
        exists (m :: taken), dropped. split; [simpl; now rewrite Hc|].
        split; [rewrite Hr; simpl; now rewrite <- app_assoc|].
        split.
        -- intros _. rewrite tokens_cons.
           destruct taken as [|t ts]; [rewrite tokens_nil; lia|].
           assert (t :: ts <> []) by discriminate.
           specialize (Hb H). lia.
        -- intros d rest H. specialize (Hd d rest H).
           rewrite tokens_cons. lia.
Qed.

(** The system prompt ends up last.  An empty conversation throws.
    Otherwise the result is a run of the newest non-system messages, in
    their order, followed by the first message when that is a system
    message: every other system message is left out, and the system
    prompt no longer leads the conversation. *)
Theorem truncate_puts_system_prompt_last (messages : list Message.t) (maxTokens : nat) :
  match messages with
  | [] =>
      truncateConversation countTokens messages maxTokens
      = Thrown (TypeError "Cannot read properties of undefined (reading 'role')")
  | first :: _ =>
      exists kept dropped,
        chat_turns messages = (dropped ++ kept)%list /\
        truncateConversation countTokens messages maxTokens
        = Normal (kept ++ (if is_system first then [first] else []))%list
  end.
Proof.
  destruct messages as [|first rest]; [reflexivity|].
  unfold truncateConversation.
  destruct (is_system first) eqn:Hs.
  - destruct (scan_spec (rev (first :: rest)) maxTokens
                (messageTokens countTokens first) [first])
      as (taken & dropped & Hc & Hr & _).
    exists (rev taken), (rev dropped). split.
    + rewrite chat_turns_rev in Hc. apply (f_equal (@rev _)) in Hc.
      rewrite rev_involutive, rev_app_distr in Hc. exact Hc.
    + now rewrite Hr.
  - destruct (scan_spec (rev (first :: rest)) maxTokens 0 [])
      as (taken & dropped & Hc & Hr & _).
    exists (rev taken), (rev dropped). split.
    + rewrite chat_turns_rev in Hc. apply (f_equal (@rev _)) in Hc.
      rewrite rev_involutive, rev_app_distr in Hc. exact Hc.
    + now rewrite Hr.
Qed.

(** The budget is kept, except by the system prompt alone: whenever the
    result holds a non-system message, the tokens of the whole result
    (four per message for metadata included) do not exceed [maxTokens]. *)
Theorem truncate_keeps_budget (messages out : list Message.t) (maxTokens : nat) :
  truncateConversation countTokens messages maxTokens = Normal out ->
  chat_turns out <> [] ->
  tokens countTokens out <= maxTokens.
Proof.
  destruct messages as [|first rest]; [discriminate|].
  unfold truncateConversation.
  destruct (is_system first) eqn:Hs; intros H Hne; injection H as <-.
  - destruct (scan_spec (rev (first :: rest)) maxTokens
                (messageTokens countTokens first) [first])
      as (taken & dropped & Hc & Hr & Hb & _).
    cbn [rev] in Hr. rewrite Hr in *. rewrite tokens_app, tokens_rev.
    assert (Ht : taken <> []).
    { intros ->. apply Hne. unfold chat_turns. simpl. now rewrite Hs. }
    specialize (Hb Ht). rewrite tokens_cons, tokens_nil. lia.
  - destruct (scan_spec (rev (first :: rest)) maxTokens 0 [])
      as (taken & dropped & Hc & Hr & Hb & _).
    cbn [rev] in Hr. rewrite Hr in *. rewrite app_nil_r in *. rewrite tokens_rev.
    assert (Ht : taken <> []) by (intros ->; now apply Hne).
    specialize (Hb Ht). lia.
Qed.

(** Nothing that fits is left out: when a conversation opens with the
    system prompt, holds no other system message, and fits the budget
    as a whole, the result is all of it, with the system prompt moved
    from the first place to the last. *)
Theorem truncate_whole_conversation_rotates (first : Message.t) (rest : list Message.t)
    (maxTokens : nat) :
  is_system first = true ->
  chat_turns rest = rest ->
  tokens countTokens (first :: rest) <= maxTokens ->
  truncateConversation countTokens (first :: rest) maxTokens
  = Normal (rest ++ [first])%list.
Proof.
  intros Hs Hrest Hfit. unfold truncateConversation. rewrite Hs.
  destruct (scan_spec (rev (first :: rest)) maxTokens
              (messageTokens countTokens first) [first])
    as (taken & dropped & Hc & Hr & Hb & Hd).
  rewrite Hr. rewrite chat_turns_rev in Hc. unfold chat_turns in Hc, Hrest.
  simpl in Hc. rewrite Hs in Hc. simpl in Hc.
  rewrite Hrest in Hc.
  destruct dropped as [|d ds].
  - rewrite app_nil_r in Hc. subst taken. now rewrite rev_involutive.
  - exfalso. specialize (Hd d ds eq_refl).
    assert (Hsum : tokens countTokens rest
                   = tokens countTokens taken + tokens countTokens (d :: ds)).
    { rewrite <- tokens_rev, Hc. apply tokens_app. }
    rewrite !tokens_cons in *. lia.
Qed.

End TruncateFacts.

(** A conversation for running the truncation, with the length in
    bytes standing in for the tokenizer. *)
Definition long_chat : list Message.t :=
  [Message.mk None None system "You are a helpful assistant." None;
   ChatWindow.userMessage "chat-1" "Hi" "t0";
   assistant_message "chat-1" "Hello!" "t1";
   ChatWindow.userMessage "chat-1" "Bye" "t2"].

Lemma truncate_keeps_budget_witness :
  Truncate.tokens String.length
    [assistant_message "chat-1" "Hello!" "t1";
     ChatWindow.userMessage "chat-1" "Bye" "t2";
     Message.mk None None system "You are a helpful assistant." None] <= 50.
Proof.
  apply (truncate_keeps_budget String.length long_chat _ 50 eq_refl).
  discriminate.
Defined.

Lemma truncate_whole_conversation_rotates_witness :
  Truncate.truncateConversation String.length long_chat 4000
  = Normal [ChatWindow.userMessage "chat-1" "Hi" "t0";
            assistant_message "chat-1" "Hello!" "t1";
            ChatWindow.userMessage "chat-1" "Bye" "t2";
            Message.mk None None system "You are a helpful assistant." None].
Proof.
  apply (truncate_whole_conversation_rotates String.length
           (Message.mk None None system "You are a helpful assistant." None)
           [ChatWindow.userMessage "chat-1" "Hi" "t0";
            assistant_message "chat-1" "Hello!" "t1";
            ChatWindow.userMessage "chat-1" "Bye" "t2"] 4000).
  - reflexivity.
  - reflexivity.
  - unfold Truncate.tokens, Truncate.messageTokens. simpl. repeat constructor.
Defined.


(** * Adapting messages to a provider ([adaptMessages]) *)

Module Providers.

(** The [Provider] union, and any other string the function may be
    handed at run time. *)
Inductive Provider :=
| openai
| ollama
| anthropic
| gemini
| other (name : string).

(** What [adaptMessages] returns: a message in the base format, or a
    Gemini content [{ role, parts: [{ text }] }]. *)
Inductive Adapted :=
| Base (m : Message.t)
| Content (role : string) (parts : list string).

(** [`System instruction: ${msg.content}`] *)
Definition system_instruction (m : Message.t) : string :=
  "System instruction: " ++ Message.content m.

Definition to_anthropic (msg : Message.t) : Adapted :=
  match Message.role msg with
  | system => Base (Message.mk None None user (system_instruction msg) None)
  | _ => Base msg
  end.

Definition to_gemini (msg : Message.t) : Adapted :=
  match Message.role msg with
  | user => Content "user" [Message.content msg]
  | assistant => Content "model" [Message.content msg]
  | system => Content "user" [system_instruction msg]
  end.

(** [adaptMessages(provider, messages)] *)
Definition adaptMessages (provider : Provider) (messages : list Message.t)
  : list Adapted :=
  match provider with
  | openai => map Base messages
  | ollama => map Base messages
  | anthropic => map to_anthropic messages
  | gemini => map to_gemini messages
  | other _ => map Base messages
  end.

(** The text an adapted message carries. *)
Definition text_of (a : Adapted) : string :=
  match a with
  | Base m => Message.content m
  | Content _ parts => concatenation parts
  end.

(** The role an adapted message is sent under. *)
Definition role_of (a : Adapted) : string :=
  match a with
  | Base m =>
      match Message.role m with
      | system => "system"
      | user => "user"
      | assistant => "assistant"
      end
  | Content role _ => role
  end.

End Providers.

Section AdaptFacts.
Import Providers.

(** No adapter drops, adds or reorders a message, and only system
    messages are reworded: position by position, the text sent is the
    content of the message, except that Anthropic and Gemini get a
    system message as "System instruction: " followed by its content. *)
Theorem adapt_keeps_every_turn (provider : Provider) (messages : list Message.t) :
  map text_of (adaptMessages provider messages)
  = map (fun m =>
           match provider, Message.role m with
           | anthropic, system => system_instruction m
           | gemini, system => system_instruction m
           | _, _ => Message.content m
           end) messages.
Proof.
  destruct provider; unfold adaptMessages; rewrite map_map; apply map_ext; intro m;
    try reflexivity.
  - unfold to_anthropic. destruct (Message.role m); reflexivity.
  - unfold to_gemini.
    destruct (Message.role m); cbn [text_of concatenation fold_right];
      apply append_empty_r.
Qed.

(** For Anthropic and Gemini no entry is sent under the system role:
    each system message becomes a user entry whose text is
    "System instruction: " followed by the original content; Gemini
    entries are sent as "user" or "model" with exactly one part. *)
Theorem adapt_removes_system_role (messages : list Message.t) :
  Forall (fun a => role_of a = "user" \/ role_of a = "assistant")
         (adaptMessages anthropic messages) /\
  Forall (fun a => exists role part,
                     a = Content role [part] /\ (role = "user" \/ role = "model"))
         (adaptMessages gemini messages) /\
  forall m, In m messages -> Message.role m = system ->
    In (Base (Message.mk None None user ("System instruction: " ++ Message.content m) None))
       (adaptMessages anthropic messages) /\
    In (Content "user" ["System instruction: " ++ Message.content m])
       (adaptMessages gemini messages).
Proof.
  split; [|split].
  - apply Forall_map. apply Forall_forall. intros m _. unfold to_anthropic.
    destruct (Message.role m) eqn:E; simpl; rewrite ?E; auto.
  - apply Forall_map. apply Forall_forall. intros m _. unfold to_gemini.
    destruct (Message.role m); eauto.
  - intros m Hin Hr. split.
    + apply in_map_iff. exists m. split; [|exact Hin].
      unfold to_anthropic. now rewrite Hr.
    + apply in_map_iff. exists m. split; [|exact Hin].
      unfold to_gemini. now rewrite Hr.
Qed.

(** The adapters, run on a conversation. *)
Example adapt_run :
  map role_of (adaptMessages anthropic long_chat) = ["user"; "user"; "assistant"; "user"] /\
  map role_of (adaptMessages gemini long_chat) = ["user"; "user"; "model"; "user"] /\
  map text_of (adaptMessages gemini long_chat)
    = ["System instruction: You are a helpful assistant."; "Hi"; "Hello!"; "Bye"] /\
  adaptMessages ollama long_chat = map Base long_chat.
Proof. repeat split. Qed.

End AdaptFacts.


(** * Caching completions ([generateWithCache]) *)

Module Cache.

(** The module-level [cache] map and the number of requests the
    provider has received. *)
Record State := mkState {
  cache : string -> option (option string);
  requests : nat
}.

Section WithProvider.

(** [JSON.stringify({ messages, model })] *)
Variable stringify : list Message.t -> string -> string.

(** [generateChatCompletion(messages, model)] as answered on the
    provider's [n]-th request: completions vary from one request to
    the next. *)
Variable provider : list Message.t -> string -> nat -> ApiError + option string.

(** [cache.set(cacheKey, response)] *)
Definition cache_set (st : State) (cacheKey : string) (response : option string) : State :=
  mkState (fun k => if String.eqb k cacheKey then Some response else cache st k)
          (requests st).

(** [generateWithCache(messages, model)] *)
Definition generateWithCache (messages : list Message.t) (model : string)
  : Eff State (option string) :=
  fun st =>
    let cacheKey := stringify messages model in
    match cache st cacheKey with
    | Some cached => (Normal cached, st)          (* [cache.has(cacheKey)] *)
    | None =>
        match provider messages model (requests st) with
        | inr response =>
            (Normal response,
             cache_set (mkState (cache st) (S (requests st))) cacheKey response)
        | inl error => (Thrown error, mkState (cache st) (S (requests st)))
        end
    end.

End WithProvider.

End Cache.

(** Once answered, always the same answer: after [generateWithCache]
    has returned a completion for a conversation and a model, asking
    again returns that same completion and sends nothing to the
    provider, whatever the provider would answer now. *)
Theorem cached_answer_is_repeated stringify provider messages model st v st' :
  Cache.generateWithCache stringify provider messages model st = (Normal v, st') ->
  Cache.generateWithCache stringify provider messages model st' = (Normal v, st').
Proof.
  unfold Cache.generateWithCache.
  destruct (Cache.cache st (stringify messages model)) as [cached|] eqn:Hc.
  - intro H. injection H as <- <-. now rewrite Hc.
  - destruct (provider messages model (Cache.requests st)) as [e|response];
      [discriminate|].
    intro H. injection H as <- <-. cbn [Cache.cache Cache.cache_set].
    now rewrite String.eqb_refl.
Qed.

Definition moody (messages : list Message.t) (model : string) (n : nat)
  : ApiError + option string :=
  match n with
  | 0 => inr (Some "Hello!")
  | _ => inr (Some "Go away.")
  end.

Definition by_model (messages : list Message.t) (model : string) : string := model.

Lemma cached_answer_is_repeated_witness :
  Cache.generateWithCache by_model moody long_chat "gpt-4"
    (Cache.cache_set (Cache.mkState (fun _ => None) 1) "gpt-4" (Some "Hello!"))
  = (Normal (Some "Hello!"),
     Cache.cache_set (Cache.mkState (fun _ => None) 1) "gpt-4" (Some "Hello!")).
Proof.
  apply (cached_answer_is_repeated by_model moody long_chat "gpt-4"
           (Cache.mkState (fun _ => None) 0)).
  reflexivity.
Defined.

(** Failures are not cached: when the provider rejects the request,
    the error is passed on, the cache holds what it held, and the same
    question goes to the provider again the next time. *)
Theorem failed_completion_is_not_cached stringify provider messages model st e st' :
  Cache.generateWithCache stringify provider messages model st = (Thrown e, st') ->
  Cache.cache st' = Cache.cache st /\
  Cache.requests st' = S (Cache.requests st) /\
  provider messages model (Cache.requests st) = inl e /\
  Cache.generateWithCache stringify provider messages model st'
  = match provider messages model (S (Cache.requests st)) with
    | inr response =>
        (Normal response,
         Cache.cache_set (Cache.mkState (Cache.cache st) (S (S (Cache.requests st))))
           (stringify messages model) response)
    | inl error => (Thrown error, Cache.mkState (Cache.cache st) (S (S (Cache.requests st))))
    end.
Proof.
  unfold Cache.generateWithCache.
  destruct (Cache.cache st (stringify messages model)) as [cached|] eqn:Hc;
    [discriminate|].
  destruct (provider messages model (Cache.requests st)) as [err|response] eqn:Hp;
    [|discriminate].
  intro H. injection H as <- <-. cbn [Cache.cache Cache.requests].
  rewrite Hc. repeat split.
Qed.

Definition recovering (messages : list Message.t) (model : string) (n : nat)
  : ApiError + option string :=
  match n with
  | 0 => inl Demo.rate_limited
  | _ => inr (Some "Hello!")
  end.

Lemma failed_completion_is_not_cached_witness :
  Cache.cache (Cache.mkState (fun _ => None) 1) = Cache.cache (Cache.mkState (fun _ => None) 0).
Proof.
  exact (proj1 (failed_completion_is_not_cached by_model recovering long_chat "gpt-4"
                  (Cache.mkState (fun _ => None) 0) Demo.rate_limited
                  (Cache.mkState (fun _ => None) 1) eq_refl)).
Defined.


(** * The system prompt editor ([SystemPromptEditor.tsx], [ChatWindow.tsx]) *)

Module PromptEditor.

Import SendMessage.

(** State of [SystemPromptEditor]. *)
Record Editor := mkEditor {
  prompt : string;
  isEditing : bool;
  isSaving : bool
}.

Definition default_prompt : string := "You are a helpful assistant.".

(** [initialPrompt={chat.system_prompt || 'You are a helpful assistant.'}]
    and [useState(initialPrompt)]: the editor as it is mounted for a chat. *)
Definition mount (c : Chat.t) : Editor :=
  mkEditor (Js.or (Some (Chat.system_prompt c)) default_prompt) false false.

Definition with_prompt (c : Chat.t) (newPrompt : string) : Chat.t :=
  Chat.mk (Chat.id c) (Chat.user_id c) (Chat.title c) (Chat.created_at c) newPrompt.

(** [handleUpdateSystemPrompt(newPrompt)] of the chat window, with
    [update] the [{ error }] the store answers to the update: [None]
    when the promise resolves, [Some e] when it rejects with [e]. *)
Definition handleUpdateSystemPrompt (update : option PgError) (chatId newPrompt : string)
    (b : Browser) : option PgError * Browser :=
  if match current_user b with None => true | Some _ => false end
     || negb (Js.truthy chatId)
  then (None, b)
  else
    match update with
    | Some e => (Some e, browser_error "Error updating system prompt:" (LogPg e) b)
    | None =>
        (None,
         mkBrowser (current_user b)
                   (option_map (fun prev => with_prompt prev newPrompt) (chat b))
                   (messages b) (newMessage b) (isProcessing b) (jar b)
                   (browser_console b))
    end.

(** [handleSave] of the editor, with [onSave] the handler above. *)
Definition handleSave (update : option PgError) (chatId : string) (ed : Editor)
    (b : Browser) : Editor * Browser :=
  match handleUpdateSystemPrompt update chatId (prompt ed) b with
  | (None, b') => (mkEditor (prompt ed) false false, b')
  | (Some e, b') =>
      (mkEditor (prompt ed) (isEditing ed) false,
       browser_error "Error saving system prompt:" (LogPg e) b')
  end.

(** The Edit button. *)
Definition edit (ed : Editor) : Editor := mkEditor (prompt ed) true (isSaving ed).

End PromptEditor.

(** The prompt on screen is not the prompt in use.  For a chat whose
    stored system prompt is empty, the editor displays
    'You are a helpful assistant.' while the conversation sent to the
    provider has no system turn at all; pressing Edit and then Save
    without typing anything stores the displayed text, closes the
    editor, and from then on the conversation starts with that system
    turn. *)
Theorem displayed_default_prompt_is_sent_only_after_save
    (c : Chat.t) (u : User.t) (chatId : string) (b : SendMessage.Browser)
    (H : list Message.t) (T : Message.t) :
  Chat.system_prompt c = "" ->
  chatId <> "" ->
  SendMessage.chat b = Some c ->
  SendMessage.current_user b = Some u ->
  let shown := PromptEditor.mount c in
  let saved := PromptEditor.handleSave None chatId (PromptEditor.edit shown) b in
  PromptEditor.prompt shown = "You are a helpful assistant." /\
  ChatWindow.allMessages (SendMessage.chat b) H T = (H ++ [T])%list /\
  fst saved = PromptEditor.mkEditor "You are a helpful assistant." false false /\
  ChatWindow.allMessages (SendMessage.chat (snd saved)) H T
  = (Message.mk None None system "You are a helpful assistant." None :: H ++ [T])%list.
Proof.
  intros Hp Hc Hb Hu shown saved. subst shown saved.
  unfold PromptEditor.handleSave, PromptEditor.handleUpdateSystemPrompt,
    PromptEditor.edit, PromptEditor.mount.
  rewrite Hu, Hp, Hb. apply truthy_true_nonempty in Hc. rewrite Hc.
  cbn [negb orb fst snd PromptEditor.prompt SendMessage.chat option_map].
  unfold ChatWindow.allMessages, ChatWindow.system_turn.
  rewrite Hp. repeat split.
Qed.

Definition untitled : Chat.t :=
  Chat.mk "chat-1" "u-1" "New chat" "2024-01-02T00:00:00.000Z" "".

Lemma displayed_default_prompt_is_sent_only_after_save_witness :
  ChatWindow.allMessages
    (SendMessage.chat
       (snd (PromptEditor.handleSave None "chat-1"
               (PromptEditor.edit (PromptEditor.mount untitled))
               (SendMessage.mkBrowser (Some Demo.alice) (Some untitled) [] "Hi" false [] []))))
    [] (ChatWindow.userMessage "chat-1" "Hi" "t0")
  = [Message.mk None None system "You are a helpful assistant." None;
     ChatWindow.userMessage "chat-1" "Hi" "t0"].
Proof.
  refine (proj2 (proj2 (proj2
    (displayed_default_prompt_is_sent_only_after_save untitled Demo.alice "chat-1"
       (SendMessage.mkBrowser (Some Demo.alice) (Some untitled) [] "Hi" false [] [])
       [] (ChatWindow.userMessage "chat-1" "Hi" "t0")
       eq_refl _ eq_refl eq_refl)))).
  discriminate.
Defined.

(** A failed save changes nothing but the logs: the chat keeps its
    prompt, the editor stays open with the text as typed, and the
    store's error is logged once by the chat window and once by the
    editor. *)
Example failed_save_run :
  PromptEditor.handleSave (Some {| code := "42501"; details := "permission denied" |})
    "chat-1" (PromptEditor.mkEditor "Be brief." true false)
    (SendMessage.mkBrowser (Some Demo.alice) (Some untitled) [] "" false [] [])
  = (PromptEditor.mkEditor "Be brief." true false,
     SendMessage.mkBrowser (Some Demo.alice) (Some untitled) [] "" false []
       [("Error updating system prompt:",
         LogPg {| code := "42501"; details := "permission denied" |});
        ("Error saving system prompt:",
         LogPg {| code := "42501"; details := "permission denied" |})]).
Proof. reflexivity. Qed.
